(** * QIMG: the QQAvatar client of main.py

    A shallow embedding of [class QQAvatar] (URL construction, existence
    probe, single download, batch download) and the properties of its
    specification.

    Conventions of the embedding.
    - A Python [str] is a Rocq [string]; only ASCII code points are
      modelled (the built-in [int] also accepts non-ASCII decimal digits
      and white space, which have no counterpart here).
    - A Python [int] is a [Z]; the interpreter's optional cap on the length
      of decimal conversions is taken to be switched off.
    - A call that can raise returns a [result]; a method that talks to the
      network, the file system or the terminal is a function from the
      history of events so far to a [result] and the extended history.
      Every such call can raise, [print] included (a standard output that
      cannot encode the line, a closed pipe). *)

From Stdlib Require Import ZArith String Ascii List Bool Lia.
From Stdlib Require Import DecimalString.
From Stdlib.Strings Require Import Byte.
Import ListNotations.

Local Open Scope string_scope.
Local Open Scope Z_scope.

(** ** Python built-ins used by the program *)

Module Py.

(** The exceptions that can travel through the program.  All derive
    from [Exception], except [KeyboardInterrupt], which derives from
    [BaseException] only; [is_Exception] and [is_RequestException] are
    the tests that the [except] clauses make. *)
Inductive request_exception : Type :=
| HTTPError (status : Z)     (* raised by [raise_for_status] *)
| ConnectionError
| Timeout
| TooManyRedirects.

Inductive exn : Type :=
| ValueError                                   (* [int] on a malformed literal *)
| KeyError (name : string)                     (* [str.format], unknown field *)
| RequestException (r : request_exception)     (* requests.exceptions.* *)
| OSError (errno : Z)                          (* os.makedirs, open, write *)
| KeyboardInterrupt.

Definition is_RequestException (e : exn) : bool :=
  match e with RequestException _ => true | _ => false end.

Definition is_Exception (e : exn) : bool :=
  match e with KeyboardInterrupt => false | _ => true end.

Inductive result (A : Type) : Type :=
| Return (a : A)
| Raise (e : exn).
Arguments Return {A} a.
Arguments Raise {A} e.

(** [str(n)] for an [int]: the decimal numeral, with a leading minus
    sign for a negative number. *)
Definition str_of_int (n : Z) : string :=
  NilZero.string_of_int (Z.to_int n).

(** White space as [int] skips it around an ASCII literal: tab, line
    feed, vertical tab, form feed, carriage return, space. *)
Definition is_space (c : ascii) : bool :=
  let n := nat_of_ascii c in
  ((9 <=? n) && (n <=? 13))%nat || (n =? 32)%nat.

Definition digit_value (c : ascii) : option Z :=
  let n := nat_of_ascii c in
  if ((48 <=? n) && (n <=? 57))%nat then Some (Z.of_nat n - 48) else None.

Definition is_underscore (c : ascii) : bool := (nat_of_ascii c =? 95)%nat.

Fixpoint skip_spaces (s : string) : string :=
  match s with
  | String c s' => if is_space c then skip_spaces s' else s
  | EmptyString => s
  end.

(** The digits of a literal.  [prev] tells what the previous character
    was: [None] at the start, [Some true] after an underscore,
    [Some false] after a digit.  An underscore is accepted only between
    two digits.  Returns the value read and what is left. *)
Fixpoint scan_digits (acc : Z) (prev : option bool) (s : string)
  : option (Z * string) :=
  match s with
  | String c s' =>
      match digit_value c with
      | Some d => scan_digits (10 * acc + d) (Some false) s'
      | None =>
          if is_underscore c then
            match prev with
            | Some false => scan_digits acc (Some true) s'
            | _ => None
            end
          else
            match prev with
            | Some false => Some (acc, s)
            | _ => None
            end
      end
  | EmptyString =>
      match prev with
      | Some false => Some (acc, s)
      | _ => None
      end
  end.

(** [int(s)] for a [str], base ten: white space, an optional sign,
    digits, white space, end of the string.  [None] stands for
    [ValueError]. *)
Definition int_of_str (s : string) : option Z :=
  let s1 := skip_spaces s in
  let '(negative, s2) :=
    match s1 with
    | String "+" r => (false, r)
    | String "-" r => (true, r)
    | _ => (false, s1)
    end in
  match scan_digits 0 None s2 with
  | Some (n, rest) =>
      match skip_spaces rest with
      | EmptyString => Some (if negative then - n else n)
      | _ => None
      end
  | None => None
  end.

(** Keyword arguments of [str.format], already rendered with [str]. *)
Definition kwargs : Type := list (string * string).

Fixpoint lookup (name : string) (kw : kwargs) : option string :=
  match kw with
  | (k, v) :: kw' => if String.eqb k name then Some v else lookup name kw'
  | [] => None
  end.

(** [template.format( **kw )] for templates whose replacement fields are
    plain names, [{name}], as the two templates of the class are.  [field]
    is the name being read, when inside braces.  A name without an
    argument is a [KeyError].  Doubled braces, conversions and format
    specifications are outside the model: a brace that does not open or
    close a plain field is answered with [ValueError]. *)
Fixpoint format_from (field : option string) (kw : kwargs) (template : string)
  : result string :=
  match template, field with
  | EmptyString, None => Return EmptyString
  | EmptyString, Some _ => Raise ValueError
  | String c t, None =>
      if Ascii.eqb c "{" then format_from (Some EmptyString) kw t
      else if Ascii.eqb c "}" then Raise ValueError
      else match format_from None kw t with
           | Return r => Return (String c r)
           | Raise e => Raise e
           end
  | String c t, Some name =>
      if Ascii.eqb c "}" then
        match lookup name kw with
        | Some v =>
            match format_from None kw t with
            | Return r => Return (v ++ r)
            | Raise e => Raise e
            end
        | None => Raise (KeyError name)
        end
      else if Ascii.eqb c "{" then Raise ValueError
      else format_from (Some (name ++ String c EmptyString)) kw t
  end.

Definition format (template : string) (kw : kwargs) : result string :=
  format_from None kw template.

End Py.
Import Py.

(** ** The pure part of the class *)

(** The argument [qq : Union[str, int]]; a [bool] is an [int] too. *)
Inductive qq_t : Type :=
| QStr (s : string)
| QInt (n : Z)
| QBool (b : bool).

(** [str(qq)], also what an f-string prints for [{qq}]. *)
Definition str_of_qq (qq : qq_t) : string :=
  match qq with
  | QStr s => s
  | QInt n => str_of_int n
  | QBool b => if b then "True" else "False"
  end.

(** The instance: its two attributes, as [__init__] sets them. *)
Record QQAvatar : Type := {
  normal_url_template : string;
  hd_url_template : string
}.

Definition init : QQAvatar := {|
  normal_url_template := "http://q{server}.qlogo.cn/g?b=qq&nk={qq}&s={size}";
  hd_url_template := "http://q.qlogo.cn/headimg_dl?dst_uin={qq}&spec={size}&img_type=jpg"
|}.

(** [get_avatar_url(self, qq, hd, size)]. *)
Definition get_avatar_url (self : QQAvatar) (qq : qq_t) (hd : bool) (size : Z)
  : result string :=
  let qq_str := str_of_qq qq in
  if hd then
    let size := if size >? 640 then 640 else size in
    format (hd_url_template self)
           [("qq", qq_str); ("size", str_of_int size)]
  else
    let size := if size >? 140 then 140 else size in
    match int_of_str qq_str with
    | None => Raise ValueError
    | Some n =>
        let server := if n mod 2 =? 0 then "1" else "2" in
        format (normal_url_template self)
               [("server", server); ("qq", qq_str); ("size", str_of_int size)]
    end.

(** ** The outside world *)

Module IO.

(** What [requests.get] and [requests.head] hand back. *)
Record response : Type := {
  status_code : Z;
  content : list byte
}.

(** The lines the program prints; each constructor keeps the values
    that its f-string interpolates. *)
Inductive message : Type :=
| MsgSaved (save_path : string) (nbytes : nat)   (* saved: path (n bytes) *)
| MsgDownloadFailed (e : exn)                    (* download failed: e *)
| MsgSaveFailed (e : exn)                        (* saving failed: e *)
| MsgBatchStart (n : nat)                        (* starting a batch of n *)
| MsgItem (i n : nat) (qq : qq_t)                (* [i/n] downloading qq *)
| MsgBatchDone (success_count n : nat).          (* done, success: k/n *)

(** What the program does to the world, in the order it does it.  A call
    is recorded when it is made, whether it then succeeds or raises. *)
Inductive event : Type :=
| EvGet (url : string)                       (* requests.get(url, timeout=10) *)
| EvHead (url : string)                      (* requests.head(url, timeout=5) *)
| EvExists (path : string)                   (* os.path.exists(path) *)
| EvMakedirs (path : string) (exist_ok : bool)
| EvOpen (path : string)                     (* open(path, 'wb') *)
| EvWrite (path : string) (data : list byte) (* f.write(data), then close *)
| EvPrint (m : message).

Definition history : Type := list event.

(** The world answers each call, knowing everything that happened
    before it.  Nothing is assumed about the answers. *)
Record World : Type := {
  get_outcome : history -> string -> result response;
  head_outcome : history -> string -> result response;
  exists_outcome : history -> string -> bool;
  makedirs_outcome : history -> string -> bool -> result unit;
  open_outcome : history -> string -> result unit;
  write_outcome : history -> string -> list byte -> result unit;
  print_outcome : history -> message -> result unit;
  abspath : string -> string    (* os.path.abspath, a function of the working directory *)
}.

Definition IO (A : Type) : Type := history -> result A * history.

Definition ret {A} (a : A) : IO A := fun h => (Return a, h).

Definition bind {A B} (m : IO A) (k : A -> IO B) : IO B :=
  fun h =>
    match m h with
    | (Return a, h') => k a h'
    | (Raise e, h') => (Raise e, h')
    end.

(** A computation without effects, which may raise. *)
Definition lift {A} (r : result A) : IO A := fun h => (r, h).

(** One call into the world: its outcome is decided on the history
    before the call, and the call is recorded. *)
Definition perform {A} (ev : event) (outcome : history -> result A) : IO A :=
  fun h => (outcome h, (h ++ [ev])%list).

(** [try: body  except ...: handler].  [handler e] is [None] when no
    clause matches [e], which then keeps travelling. *)
Definition try_except {A} (body : IO A) (handler : exn -> option (IO A)) : IO A :=
  fun h =>
    match body h with
    | (Return a, h') => (Return a, h')
    | (Raise e, h') =>
        match handler e with
        | Some recover => recover h'
        | None => (Raise e, h')
        end
    end.

End IO.
Import IO.

Notation "x <- m ;; k" := (bind m (fun x => k))
  (at level 61, m at next level, right associativity).
Notation "m ;; k" := (bind m (fun _ => k))
  (at level 61, right associativity).

(** ** Library calls *)

(** [response.raise_for_status()] of the requests library: an
    [HTTPError] for a client error (400 to 499) or a server error (500 to
    599), nothing for any other status. *)
Definition raise_for_status (r : response) : result unit :=
  if (400 <=? status_code r) && (status_code r <? 600)
  then Raise (RequestException (HTTPError (status_code r)))
  else Return tt.

Definition is_slash (c : ascii) : bool := Ascii.eqb c "/".

Fixpoint has_slash (p : string) : bool :=
  match p with
  | String c r => is_slash c || has_slash r
  | EmptyString => false
  end.

Fixpoint all_slashes (p : string) : bool :=
  match p with
  | String c r => is_slash c && all_slashes r
  | EmptyString => true
  end.

(** [p[:p.rfind('/') + 1]] *)
Fixpoint upto_last_slash (p : string) : string :=
  match p with
  | String c r => if has_slash p then String c (upto_last_slash r) else EmptyString
  | EmptyString => EmptyString
  end.

(** [head.rstrip('/')] *)
Fixpoint rstrip_slashes (head : string) : string :=
  match head with
  | String c r => if all_slashes head then EmptyString else String c (rstrip_slashes r)
  | EmptyString => EmptyString
  end.

(** [os.path.dirname] and [os.path.join] (two arguments), POSIX flavour. *)
Definition os_path_dirname (p : string) : string :=
  let head := upto_last_slash p in
  if all_slashes head then head else rstrip_slashes head.

Definition ends_with_slash (a : string) : bool :=
  match get (String.length a - 1) a with
  | Some c => is_slash c
  | None => false
  end.

Definition os_path_isabs (p : string) : bool :=
  match p with
  | String c _ => is_slash c
  | EmptyString => false
  end.

Definition os_path_join (a b : string) : string :=
  if os_path_isabs b then b
  else if (String.length a =? 0)%nat || ends_with_slash a then a ++ b
  else a ++ "/" ++ b.

(** ** The methods that act on the world *)

Section Methods.

Variable w : World.
Variable self : QQAvatar.

Definition requests_get (url : string) : IO response :=
  perform (EvGet url) (fun h => get_outcome w h url).

Definition requests_head (url : string) : IO response :=
  perform (EvHead url) (fun h => head_outcome w h url).

Definition os_path_exists (path : string) : IO bool :=
  perform (EvExists path) (fun h => Return (exists_outcome w h path)).

Definition os_makedirs (path : string) (exist_ok : bool) : IO unit :=
  perform (EvMakedirs path exist_ok) (fun h => makedirs_outcome w h path exist_ok).

Definition open_wb (path : string) : IO unit :=
  perform (EvOpen path) (fun h => open_outcome w h path).

Definition write (path : string) (data : list byte) : IO unit :=
  perform (EvWrite path data) (fun h => write_outcome w h path data).

Definition print (m : message) : IO unit :=
  perform (EvPrint m) (fun h => print_outcome w h m).

Definition quality_suffix (hd : bool) : string :=
  if hd then "_hd.jpg" else ".png".

(** The path used when [save_path is None]. *)
Definition default_save_path (qq : qq_t) (hd : bool) : string :=
  let suffix := quality_suffix hd in
  "qq_" ++ str_of_qq qq ++ suffix.

Definition save_path_or_default (qq : qq_t) (save_path : option string)
           (hd : bool) : string :=
  match save_path with
  | None => default_save_path qq hd
  | Some p => p
  end.

(** [download_avatar(self, qq, save_path, hd, size)]; [save_path = None]
    is the default of the argument. *)
Definition download_avatar (qq : qq_t) (save_path : option string)
           (hd : bool) (size : Z) : IO bool :=
  url <- lift (get_avatar_url self qq hd size) ;;
  let save_path := save_path_or_default qq save_path hd in
  try_except
    (response <- requests_get url ;;
     lift (raise_for_status response) ;;
     os_makedirs (os_path_dirname (abspath w save_path)) true ;;
     open_wb save_path ;;
     write save_path (content response) ;;
     print (MsgSaved save_path (List.length (content response))) ;;
     ret true)
    (fun e =>
       if is_RequestException e then
         Some (print (MsgDownloadFailed e) ;; ret false)
       else if is_Exception e then
         Some (print (MsgSaveFailed e) ;; ret false)
       else None).

(** [check_avatar_exists(self, qq, hd)]; the URL is asked for with the
    default size, 640. *)
Definition check_avatar_exists (qq : qq_t) (hd : bool) : IO bool :=
  url <- lift (get_avatar_url self qq hd 640) ;;
  try_except
    (response <- requests_head url ;;
     ret (status_code response =? 200))
    (fun _ => Some (ret false)).

(** The body of the [for] loop of [batch_download], from item number [i]
    on; [n] is [len(qq_list)]. *)
Fixpoint batch_loop (output_dir : string) (hd : bool) (size : Z) (n : nat)
         (i : nat) (qqs : list qq_t) (success_count : nat) : IO nat :=
  match qqs with
  | [] => ret success_count
  | qq :: rest =>
      print (MsgItem i n qq) ;;
      let suffix := quality_suffix hd in
      let save_path := os_path_join output_dir (str_of_qq qq ++ suffix) in
      ok <- download_avatar qq (Some save_path) hd size ;;
      batch_loop output_dir hd size n (S i) rest
                 (if ok then S success_count else success_count)
  end.

(** [batch_download(self, qq_list, output_dir, hd, size)]; it has no
    [return] statement. *)
Definition batch_download (qq_list : list qq_t) (output_dir : string)
           (hd : bool) (size : Z) : IO unit :=
  present <- os_path_exists output_dir ;;
  (if negb present then os_makedirs output_dir false else ret tt) ;;
  print (MsgBatchStart (List.length qq_list)) ;;
  success_count <- batch_loop output_dir hd size (List.length qq_list) 1 qq_list 0 ;;
  print (MsgBatchDone success_count (List.length qq_list)).

End Methods.

(** ** Reading a history *)

(** The URLs requested with GET, in order. *)
Fixpoint gets (h : history) : list string :=
  match h with
  | EvGet url :: h' => url :: gets h'
  | _ :: h' => gets h'
  | [] => []
  end.

(** The paths written to, in order. *)
Fixpoint writes (h : history) : list string :=
  match h with
  | EvWrite path _ :: h' => path :: writes h'
  | _ :: h' => writes h'
  | [] => []
  end.

(** The identifiers announced by the progress lines, in order. *)
Fixpoint items (h : history) : list qq_t :=
  match h with
  | EvPrint (MsgItem _ _ qq) :: h' => qq :: items h'
  | _ :: h' => items h'
  | [] => []
  end.

(** How many times the line of a saved avatar was printed. *)
Fixpoint saved (h : history) : nat :=
  match h with
  | EvPrint (MsgSaved _ _) :: h' => S (saved h')
  | _ :: h' => saved h'
  | [] => O
  end.

(** The closing lines of batches: successes and total. *)
Fixpoint summaries (h : history) : list (nat * nat) :=
  match h with
  | EvPrint (MsgBatchDone k n) :: h' => (k, n) :: summaries h'
  | _ :: h' => summaries h'
  | [] => []
  end.

(** The line that the [except] clauses of [download_avatar] print for an
    exception they catch. *)
Definition failure_line (e : exn) : message :=
  if is_RequestException e then MsgDownloadFailed e else MsgSaveFailed e.

(** A world whose calls raise nothing but instances of [Exception]. *)
Definition only_exceptions (w : World) : Prop :=
  (forall h url e, get_outcome w h url = Raise e -> is_Exception e = true) /\
  (forall h p ok e, makedirs_outcome w h p ok = Raise e -> is_Exception e = true) /\
  (forall h p e, open_outcome w h p = Raise e -> is_Exception e = true) /\
  (forall h p d e, write_outcome w h p d = Raise e -> is_Exception e = true).

(** A world whose standard output takes every line. *)
Definition prints_succeed (w : World) : Prop :=
  forall h m, print_outcome w h m = Return tt.

(** ** Some worlds *)

(** Every request gets the answer [r]; the file system never fails;
    [output_dir] is not there yet; the working directory is [/home]. *)
Definition steady_world (r : result response) : World := {|
  get_outcome := fun _ _ => r;
  head_outcome := fun _ _ => r;
  exists_outcome := fun _ _ => false;
  makedirs_outcome := fun _ _ _ => Return tt;
  open_outcome := fun _ _ => Return tt;
  write_outcome := fun _ _ _ => Return tt;
  print_outcome := fun _ _ => Return tt;
  abspath := fun p => if os_path_isabs p then p else "/home/" ++ p
|}.

(** As [steady_world], with a file system that refuses every write
    (errno 28, no space left on the device). *)
Definition full_disk_world (r : result response) : World := {|
  get_outcome := fun _ _ => r;
  head_outcome := fun _ _ => r;
  exists_outcome := fun _ _ => false;
  makedirs_outcome := fun _ _ _ => Return tt;
  open_outcome := fun _ _ => Return tt;
  write_outcome := fun _ _ _ => Raise (OSError 28);
  print_outcome := fun _ _ => Return tt;
  abspath := fun p => if os_path_isabs p then p else "/home/" ++ p
|}.

(** As [steady_world r], except that the request number [k] (from 0)
    fails to connect. *)
Definition flaky_world (k : nat) (r : result response) : World := {|
  get_outcome := fun h _ =>
    if (List.length (gets h) =? k)%nat
    then Raise (RequestException ConnectionError) else r;
  head_outcome := fun _ _ => r;
  exists_outcome := fun _ _ => false;
  makedirs_outcome := fun _ _ _ => Return tt;
  open_outcome := fun _ _ => Return tt;
  write_outcome := fun _ _ _ => Return tt;
  print_outcome := fun _ _ => Return tt;
  abspath := fun p => if os_path_isabs p then p else "/home/" ++ p
|}.

(** As [steady_world r], with a standard output in the GBK encoding: the
    lines in Chinese are printed, the three lines that start with a check
    mark or a cross (saved, download failed, saving failed) are not:
    [print] raises [UnicodeEncodeError], a [ValueError]. *)
Definition gbk_stdout_world (r : result response) : World := {|
  get_outcome := fun _ _ => r;
  head_outcome := fun _ _ => r;
  exists_outcome := fun _ _ => false;
  makedirs_outcome := fun _ _ _ => Return tt;
  open_outcome := fun _ _ => Return tt;
  write_outcome := fun _ _ _ => Return tt;
  print_outcome := fun _ m =>
    match m with
    | MsgSaved _ _ | MsgDownloadFailed _ | MsgSaveFailed _ => Raise ValueError
    | _ => Return tt
    end;
  abspath := fun p => if os_path_isabs p then p else "/home/" ++ p
|}.

Definition png_bytes : list byte := [x89; x50; x4e; x47].

Definition ok_response : response := {| status_code := 200; content := png_bytes |}.

Definition status_response (status : Z) : response :=
  {| status_code := status; content := [] |}.

(** ** The example script and further readings *)

(** The call of the size table at the end of the script,
    [get_avatar_url(test_qq, hd=(size > 140), size=size)]. *)
Definition url_for_size (self : QQAvatar) (qq : qq_t) (size : Z)
  : result string :=
  get_avatar_url self qq (size >? 140) size.

(** The path that [batch_download] gives to [download_avatar] for one
    identifier. *)
Definition batch_save_path (output_dir : string) (hd : bool) (qq : qq_t)
  : string :=
  os_path_join output_dir (str_of_qq qq ++ quality_suffix hd).

(** The progress lines, with their numbers: index, total, identifier. *)
Fixpoint progress (h : history) : list (nat * nat * qq_t) :=
  match h with
  | EvPrint (MsgItem i n qq) :: h' => (i, n, qq) :: progress h'
  | _ :: h' => progress h'
  | [] => []
  end.

(** [enumerate(qqs, i)], each pair with the total [n]. *)
Fixpoint numbered (i n : nat) (qqs : list qq_t) : list (nat * nat * qq_t) :=
  match qqs with
  | qq :: rest => (i, n, qq) :: numbered (S i) n rest
  | [] => []
  end.

(** The URLs probed with HEAD, in order. *)
Fixpoint heads (h : history) : list string :=
  match h with
  | EvHead url :: h' => url :: heads h'
  | _ :: h' => heads h'
  | [] => []
  end.

(** The calls that touch the file system: directories made, files
    opened, files written. *)
Fixpoint touched (h : history) : list string :=
  match h with
  | EvMakedirs path _ :: h' => path :: touched h'
  | EvOpen path :: h' => path :: touched h'
  | EvWrite path _ :: h' => path :: touched h'
  | _ :: h' => touched h'
  | [] => []
  end.

(** What [batch_download] does before its loop, the directory being
    there or not. *)
Definition setup_events (present : bool) (output_dir : string) (n : nat)
  : history :=
  if present
  then [EvExists output_dir; EvPrint (MsgBatchStart n)]
  else [EvExists output_dir; EvMakedirs output_dir false;
        EvPrint (MsgBatchStart n)].

(** A world where nothing fails: every request is answered without an
    error status, the file system and the standard output accept every
    call. *)
Definition always_delivers (w : World) : Prop :=
  (forall h url, exists r,
      get_outcome w h url = Return r /\ ~ 400 <= status_code r < 600) /\
  (forall h p ok, makedirs_outcome w h p ok = Return tt) /\
  (forall h p, open_outcome w h p = Return tt) /\
  (forall h p d, write_outcome w h p d = Return tt) /\
  prints_succeed w.

(** A world where every request fails with a request exception. *)
Definition network_down (w : World) : Prop :=
  forall h url, exists r,
    get_outcome w h url = Raise (RequestException r).

(** * Properties *)

(** ** [str] and [int] *)

(** [int] on some literals, as the interpreter answers. *)
Example int_of_str_accepts :
  int_of_str "10001" = Some 10001 /\
  int_of_str " +12 " = Some 12 /\
  int_of_str "-0" = Some 0 /\
  int_of_str "00012" = Some 12 /\
  int_of_str "1_0" = Some 10 /\
  int_of_str (String (ascii_of_nat 9) (String "7" (String (ascii_of_nat 10) "")))
  = Some 7.
Proof. repeat split; reflexivity. Qed.

Example int_of_str_rejects :
  int_of_str "" = None /\
  int_of_str "abc" = None /\
  int_of_str "1.0" = None /\
  int_of_str "0x10" = None /\
  int_of_str "1 2" = None /\
  int_of_str "- 1" = None /\
  int_of_str "+-1" = None /\
  int_of_str "_1" = None /\
  int_of_str "1_" = None /\
  int_of_str "1__0" = None.
Proof. repeat split; reflexivity. Qed.

(** ** URL construction *)

Lemma append_empty_r (s : string) : s ++ "" = s.
Proof. induction s as [|c s IH]; simpl; [reflexivity | now rewrite IH]. Qed.

Section UrlFacts.

Variable qq : qq_t.
Variable size : Z.

(** The high-definition URL, written out. *)
Lemma get_avatar_url_hd :
  get_avatar_url init qq true size =
  Return ("http://q.qlogo.cn/headimg_dl?dst_uin=" ++ str_of_qq qq
          ++ "&spec=" ++ str_of_int (if size >? 640 then 640 else size)
          ++ "&img_type=jpg").
Proof. reflexivity. Qed.

(** The standard URL, written out, when [int] accepts the identifier. *)
Lemma get_avatar_url_normal (n : Z) :
  int_of_str (str_of_qq qq) = Some n ->
  get_avatar_url init qq false size =
  Return ("http://q" ++ (if n mod 2 =? 0 then "1" else "2")
          ++ ".qlogo.cn/g?b=qq&nk=" ++ str_of_qq qq
          ++ "&s=" ++ str_of_int (if size >? 140 then 140 else size)).
Proof.
  intros Hn. unfold get_avatar_url. rewrite Hn.
  destruct (n mod 2 =? 0); cbn; now rewrite append_empty_r.
Qed.

Lemma get_avatar_url_invalid :
  int_of_str (str_of_qq qq) = None ->
  get_avatar_url init qq false size = Raise ValueError.
Proof. intros Hn. unfold get_avatar_url. now rewrite Hn. Qed.

End UrlFacts.

Lemma clamp_above (m size : Z) : m < size -> (if size >? m then m else size) = m.
Proof. intros H. destruct (Z.gtb_spec size m); [reflexivity | lia]. Qed.

Lemma clamp_below (m size : Z) : size <= m -> (if size >? m then m else size) = size.
Proof. intros H. destruct (Z.gtb_spec size m); [lia | reflexivity]. Qed.

Lemma parity_server (n : Z) :
  (if n mod 2 =? 0 then "1" else "2") = (if Z.even n then "1" else "2").
Proof.
  rewrite Zmod_even. destruct (Z.even n); reflexivity.
Qed.

Lemma clamp_min (m size : Z) : (if size >? m then m else size) = Z.min size m.
Proof. destruct (Z.gtb_spec size m); lia. Qed.

(** C1. Whatever the identifier, a size above the maximum of the quality
    is replaced by that maximum before it is put in the URL: 640 for the
    high-definition URL, 140 for the standard one (which exists when
    [int] accepts the identifier; in any case the call behaves as the
    call with size 140). *)
Theorem size_clamped_to_quality_maximum (qq : qq_t) (size : Z) :
  (640 < size ->
   get_avatar_url init qq true size =
   Return ("http://q.qlogo.cn/headimg_dl?dst_uin=" ++ str_of_qq qq
           ++ "&spec=640&img_type=jpg"))
  /\
  (140 < size ->
   get_avatar_url init qq false size = get_avatar_url init qq false 140
   /\
   forall n, int_of_str (str_of_qq qq) = Some n ->
     get_avatar_url init qq false size =
     Return ("http://q" ++ (if Z.even n then "1" else "2")
             ++ ".qlogo.cn/g?b=qq&nk=" ++ str_of_qq qq ++ "&s=140")).
Proof.
  split; intros Hsize.
  - rewrite get_avatar_url_hd, clamp_above by exact Hsize. reflexivity.
  - split.
    + unfold get_avatar_url. rewrite clamp_above by exact Hsize. reflexivity.
    + intros n Hn.
      rewrite (get_avatar_url_normal qq size n Hn), clamp_above by exact Hsize.
      rewrite parity_server. reflexivity.
Qed.

Lemma size_clamped_to_quality_maximum_witness :
  get_avatar_url init (QStr "10001") true 2000 =
  Return "http://q.qlogo.cn/headimg_dl?dst_uin=10001&spec=640&img_type=jpg"
  /\
  get_avatar_url init (QStr "10001") false 2000 =
  Return "http://q2.qlogo.cn/g?b=qq&nk=10001&s=140".
Proof.
  split.
  - apply (proj1 (size_clamped_to_quality_maximum (QStr "10001") 2000)). lia.
  - apply (proj2 (proj2 (size_clamped_to_quality_maximum (QStr "10001") 2000)
                        ltac:(lia)) 10001).
    reflexivity.
Defined.

(** C2. With the standard quality and an identifier that [int] reads as
    [n], the URL is http://q{server}.qlogo.cn/g?b=qq&nk={identifier}&s={size}
    with the identifier as given, the size clamped to 140, and server 1
    for an even [n], server 2 for an odd [n]. *)
Theorem standard_server_follows_parity (qq : qq_t) (size n : Z) :
  int_of_str (str_of_qq qq) = Some n ->
  (Z.even n = true ->
   get_avatar_url init qq false size =
   Return ("http://q1.qlogo.cn/g?b=qq&nk=" ++ str_of_qq qq
           ++ "&s=" ++ str_of_int (Z.min size 140)))
  /\
  (Z.odd n = true ->
   get_avatar_url init qq false size =
   Return ("http://q2.qlogo.cn/g?b=qq&nk=" ++ str_of_qq qq
           ++ "&s=" ++ str_of_int (Z.min size 140))).
Proof.
  intros Hn.
  rewrite (get_avatar_url_normal qq size n Hn), parity_server, clamp_min.
  split; intros Hpar.
  - rewrite Hpar. reflexivity.
  - rewrite <- Z.negb_odd, Hpar. reflexivity.
Qed.

Lemma standard_server_follows_parity_witness :
  get_avatar_url init (QStr "10002") false 100 =
  Return "http://q1.qlogo.cn/g?b=qq&nk=10002&s=100".
Proof.
  apply (proj1 (standard_server_follows_parity (QStr "10002") 100 10002
                                               eq_refl)).
  reflexivity.
Defined.

(** C3. [get_avatar_url] raises exactly when the quality is standard and
    [int] rejects the identifier, and what it raises is then [ValueError];
    with the high-definition quality it returns a URL for every
    identifier. *)
Theorem invalid_identifier_only_for_standard :
  (forall qq hd size,
     (exists e, get_avatar_url init qq hd size = Raise e) <->
     (hd = false /\ int_of_str (str_of_qq qq) = None))
  /\
  (forall qq hd size e,
     get_avatar_url init qq hd size = Raise e -> e = ValueError)
  /\
  (forall qq size, exists url,
     get_avatar_url init qq true size = Return url).
Proof.
  assert (Hcases : forall qq hd size e,
             get_avatar_url init qq hd size = Raise e ->
             hd = false /\ int_of_str (str_of_qq qq) = None /\ e = ValueError).
  { intros qq hd size e H. destruct hd.
    - rewrite get_avatar_url_hd in H. discriminate.
    - destruct (int_of_str (str_of_qq qq)) as [n|] eqn:Hn.
      + rewrite (get_avatar_url_normal qq size n Hn) in H. discriminate.
      + rewrite (get_avatar_url_invalid qq size Hn) in H.
        injection H as <-. auto. }
  split; [|split].
  - intros qq hd size. split.
    + intros [e H]. apply Hcases in H. tauto.
    + intros [-> Hn]. exists ValueError. now apply get_avatar_url_invalid.
  - intros qq hd size e H. now apply Hcases in H.
  - intros qq size. eexists. apply get_avatar_url_hd.
Qed.

Lemma invalid_identifier_only_for_standard_witness :
  (exists e, get_avatar_url init (QStr "12a") false 100 = Raise e) /\
  (exists url, get_avatar_url init (QStr "12a") true 100 = Return url).
Proof.
  destruct invalid_identifier_only_for_standard as (Hiff & _ & Hhd).
  split.
  - apply Hiff. split; reflexivity.
  - apply Hhd.
Defined.

(** C8. The scenario of the specification, evaluated. *)
Theorem scenario_hd_url :
  get_avatar_url init (QStr "123456789") true 640 =
  Return "http://q.qlogo.cn/headimg_dl?dst_uin=123456789&spec=640&img_type=jpg".
Proof. reflexivity. Qed.

(** C10. No lower bound is applied to the size: a size that does not
    exceed the maximum of the quality is printed in the URL as it is,
    be it zero or negative. *)
Theorem size_has_no_lower_bound (qq : qq_t) (size : Z) :
  (size <= 640 ->
   get_avatar_url init qq true size =
   Return ("http://q.qlogo.cn/headimg_dl?dst_uin=" ++ str_of_qq qq
           ++ "&spec=" ++ str_of_int size ++ "&img_type=jpg"))
  /\
  (size <= 140 ->
   forall n, int_of_str (str_of_qq qq) = Some n ->
     get_avatar_url init qq false size =
     Return ("http://q" ++ (if Z.even n then "1" else "2")
             ++ ".qlogo.cn/g?b=qq&nk=" ++ str_of_qq qq
             ++ "&s=" ++ str_of_int size)).
Proof.
  split; intros Hsize.
  - rewrite get_avatar_url_hd, clamp_below by exact Hsize. reflexivity.
  - intros n Hn.
    rewrite (get_avatar_url_normal qq size n Hn), clamp_below by exact Hsize.
    rewrite parity_server. reflexivity.
Qed.

Lemma size_has_no_lower_bound_witness :
  get_avatar_url init (QStr "10001") true 0 =
  Return "http://q.qlogo.cn/headimg_dl?dst_uin=10001&spec=0&img_type=jpg"
  /\
  get_avatar_url init (QInt 10002) false (-5) =
  Return "http://q1.qlogo.cn/g?b=qq&nk=10002&s=-5".
Proof.
  split.
  - apply (proj1 (size_has_no_lower_bound (QStr "10001") 0)). lia.
  - apply (proj2 (size_has_no_lower_bound (QInt 10002) (-5)) ltac:(lia) 10002).
    reflexivity.
Defined.

(** ** Histories *)

Lemma gets_app (h1 h2 : history) : gets (h1 ++ h2)%list = (gets h1 ++ gets h2)%list.
Proof.
  induction h1 as [|ev h1 IH]; simpl; [reflexivity|].
  destruct ev; simpl; now rewrite ?IH.
Qed.

Lemma writes_app (h1 h2 : history) :
  writes (h1 ++ h2)%list = (writes h1 ++ writes h2)%list.
Proof.
  induction h1 as [|ev h1 IH]; simpl; [reflexivity|].
  destruct ev; simpl; now rewrite ?IH.
Qed.

Lemma items_app (h1 h2 : history) : items (h1 ++ h2)%list = (items h1 ++ items h2)%list.
Proof.
  induction h1 as [|ev h1 IH]; simpl; [reflexivity|].
  destruct ev as [| | | | | |m]; simpl; try exact IH.
  destruct m; simpl; now rewrite ?IH.
Qed.

Lemma saved_app (h1 h2 : history) : saved (h1 ++ h2)%list = (saved h1 + saved h2)%nat.
Proof.
  induction h1 as [|ev h1 IH]; simpl; [reflexivity|].
  destruct ev as [| | | | | |m]; simpl; try exact IH.
  destruct m; simpl; now rewrite ?IH.
Qed.

Lemma summaries_app (h1 h2 : history) :
  summaries (h1 ++ h2)%list = (summaries h1 ++ summaries h2)%list.
Proof.
  induction h1 as [|ev h1 IH]; simpl; [reflexivity|].
  destruct ev as [| | | | | |m]; simpl; try exact IH.
  destruct m; simpl; now rewrite ?IH.
Qed.

(** ** A single download *)

Lemma raise_for_status_error (r : response) :
  400 <= status_code r < 600 ->
  raise_for_status r = Raise (RequestException (HTTPError (status_code r))).
Proof.
  intros H. unfold raise_for_status.
  replace (400 <=? status_code r) with true by (symmetry; apply Z.leb_le; lia).
  replace (status_code r <? 600) with true by (symmetry; apply Z.ltb_lt; lia).
  reflexivity.
Qed.

Lemma raise_for_status_pass (r : response) :
  ~ 400 <= status_code r < 600 -> raise_for_status r = Return tt.
Proof.
  intros H. unfold raise_for_status.
  destruct (Z.leb_spec 400 (status_code r)); simpl; [|reflexivity].
  destruct (Z.ltb_spec (status_code r) 600); [lia | reflexivity].
Qed.

Ltac run_download :=
  unfold download_avatar, requests_get, os_makedirs, open_wb, write, print,
         bind, lift, try_except, perform, ret; simpl.

Ltac flatten_history := repeat rewrite <- app_assoc; simpl.

(** The two [except] clauses applied to an exception [e]: all the shapes
    of [e], then the outcome of the line they print. *)
Ltac except_clauses e :=
  unfold failure_line; destruct e; simpl; flatten_history;
  (split; [|split]); intros; try discriminate;
  try match goal with
      | Hp : print_outcome _ _ _ = _ |- _ => rewrite Hp
      end;
  flatten_history; reflexivity.

Section DownloadFacts.

Variable w : World.
Variable qq : qq_t.
Variable save_path : option string.
Variable hd : bool.
Variable size : Z.
Variable h : history.

Local Abbreviation path := (save_path_or_default qq save_path hd).
Local Abbreviation dir := (os_path_dirname (abspath w path)).
Local Abbreviation run := (download_avatar w init qq save_path hd size h).

(** What the [except] clauses make of an exception [e] raised in the
    [try] block when the history is [h']: an instance of [Exception] is
    printed, and the call returns [False] if that line can be printed,
    and raises what [print] raised otherwise; any other exception goes
    on to the caller. *)
#[local, warnings="-inconsistent-scopes"]
Abbreviation reported e h' :=
  ((is_Exception e = true ->
    print_outcome w h' (failure_line e) = Return tt ->
    run = (Return false, app h' (cons (EvPrint (failure_line e)) nil)))
   /\
   (is_Exception e = true ->
    forall e', print_outcome w h' (failure_line e) = Raise e' ->
               run = (Raise e', app h' (cons (EvPrint (failure_line e)) nil)))
   /\
   (is_Exception e = false -> run = (Raise e, h'))).

(** Building the URL comes first and is not guarded. *)
Lemma download_avatar_url_raises (e : exn) :
  get_avatar_url init qq hd size = Raise e -> run = (Raise e, h).
Proof. intros Hurl. run_download. now rewrite Hurl. Qed.

Variable url : string.
Hypothesis Hurl : get_avatar_url init qq hd size = Return url.

Lemma download_avatar_request_raises (e : exn) :
  get_outcome w h url = Raise e ->
  reported e (h ++ [EvGet url])%list.
Proof.
  intros Hget. run_download. rewrite Hurl, Hget.
  except_clauses e.
Qed.

Lemma download_avatar_error_status (r : response) :
  get_outcome w h url = Return r ->
  400 <= status_code r < 600 ->
  reported (RequestException (HTTPError (status_code r)))
           (h ++ [EvGet url])%list.
Proof.
  intros Hget Hst. run_download. rewrite Hurl, Hget.
  rewrite (raise_for_status_error r Hst). simpl.
  unfold failure_line; simpl; flatten_history.
  (split; [|split]); intros; try discriminate;
    try match goal with
        | Hp : print_outcome _ _ _ = _ |- _ => rewrite Hp
        end;
    flatten_history; reflexivity.
Qed.

Lemma download_avatar_makedirs_raises (r : response) (e : exn) :
  get_outcome w h url = Return r ->
  ~ 400 <= status_code r < 600 ->
  makedirs_outcome w (h ++ [EvGet url])%list dir true = Raise e ->
  reported e (h ++ [EvGet url; EvMakedirs dir true])%list.
Proof.
  intros Hget Hst Hmk. run_download.
  rewrite Hurl, Hget, (raise_for_status_pass r Hst), Hmk.
  except_clauses e.
Qed.

Lemma download_avatar_open_raises (r : response) (e : exn) :
  get_outcome w h url = Return r ->
  ~ 400 <= status_code r < 600 ->
  makedirs_outcome w (h ++ [EvGet url])%list dir true = Return tt ->
  open_outcome w (h ++ [EvGet url; EvMakedirs dir true])%list path = Raise e ->
  reported e (h ++ [EvGet url; EvMakedirs dir true; EvOpen path])%list.
Proof.
  intros Hget Hst Hmk Hop. run_download.
  rewrite Hurl, Hget, (raise_for_status_pass r Hst), Hmk.
  flatten_history. rewrite Hop.
  except_clauses e.
Qed.

Lemma download_avatar_write_raises (r : response) (e : exn) :
  get_outcome w h url = Return r ->
  ~ 400 <= status_code r < 600 ->
  makedirs_outcome w (h ++ [EvGet url])%list dir true = Return tt ->
  open_outcome w (h ++ [EvGet url; EvMakedirs dir true])%list path = Return tt ->
  write_outcome w (h ++ [EvGet url; EvMakedirs dir true; EvOpen path])%list
                path (content r) = Raise e ->
  reported e (h ++ [EvGet url; EvMakedirs dir true; EvOpen path;
                    EvWrite path (content r)])%list.
Proof.
  intros Hget Hst Hmk Hop Hwr. run_download.
  rewrite Hurl, Hget, (raise_for_status_pass r Hst), Hmk.
  flatten_history. rewrite Hop. flatten_history. rewrite Hwr.
  except_clauses e.
Qed.

(** The line of a saved avatar is printed inside the [try]: when it
    cannot be printed, the [except] clauses take over, although the file
    is written. *)
Lemma download_avatar_saved_line_raises (r : response) (e : exn) :
  get_outcome w h url = Return r ->
  ~ 400 <= status_code r < 600 ->
  makedirs_outcome w (h ++ [EvGet url])%list dir true = Return tt ->
  open_outcome w (h ++ [EvGet url; EvMakedirs dir true])%list path = Return tt ->
  write_outcome w (h ++ [EvGet url; EvMakedirs dir true; EvOpen path])%list
                path (content r) = Return tt ->
  print_outcome w (h ++ [EvGet url; EvMakedirs dir true; EvOpen path;
                         EvWrite path (content r)])%list
                (MsgSaved path (List.length (content r))) = Raise e ->
  reported e (h ++ [EvGet url; EvMakedirs dir true; EvOpen path;
                    EvWrite path (content r);
                    EvPrint (MsgSaved path (List.length (content r)))])%list.
Proof.
  intros Hget Hst Hmk Hop Hwr Hpr. run_download.
  rewrite Hurl, Hget, (raise_for_status_pass r Hst), Hmk.
  flatten_history. rewrite Hop. flatten_history. rewrite Hwr.
  flatten_history. rewrite Hpr.
  except_clauses e.
Qed.

Lemma download_avatar_succeeds (r : response) :
  get_outcome w h url = Return r ->
  ~ 400 <= status_code r < 600 ->
  makedirs_outcome w (h ++ [EvGet url])%list dir true = Return tt ->
  open_outcome w (h ++ [EvGet url; EvMakedirs dir true])%list path = Return tt ->
  write_outcome w (h ++ [EvGet url; EvMakedirs dir true; EvOpen path])%list
                path (content r) = Return tt ->
  print_outcome w (h ++ [EvGet url; EvMakedirs dir true; EvOpen path;
                         EvWrite path (content r)])%list
                (MsgSaved path (List.length (content r))) = Return tt ->
  run = (Return true,
         h ++ [EvGet url; EvMakedirs dir true; EvOpen path;
               EvWrite path (content r);
               EvPrint (MsgSaved path (List.length (content r)))])%list.
Proof.
  intros Hget Hst Hmk Hop Hwr Hpr. run_download.
  rewrite Hurl, Hget, (raise_for_status_pass r Hst), Hmk.
  flatten_history. rewrite Hop. flatten_history. rewrite Hwr.
  flatten_history. rewrite Hpr. now flatten_history.
Qed.


Ltac close_adds :=
  simpl; eexists; (split; [flatten_history; reflexivity|]);
  simpl; intuition congruence.

Ltac close_adds_caught e :=
  destruct e; simpl; try destruct (print_outcome _ _ _) as [[]|?];
  close_adds.

(** Whatever the world answers: what the call adds to the history. *)
Lemma download_avatar_adds :
  exists new : history,
    snd run = (h ++ new)%list /\
    gets new = [url] /\
    items new = [] /\
    summaries new = [] /\
    (forall p, In p (writes new) -> p = path).
Proof.
  run_download. rewrite Hurl.
  destruct (get_outcome w h url) as [r|e]; [|close_adds_caught e].
  destruct (raise_for_status r) as [[]|e]; simpl; [|close_adds_caught e].
  destruct (makedirs_outcome _ _ _ _) as [[]|e]; simpl; [|close_adds_caught e].
  destruct (open_outcome _ _ _) as [[]|e]; simpl; [|close_adds_caught e].
  destruct (write_outcome _ _ _ _) as [[]|e]; simpl; [|close_adds_caught e].
  destruct (print_outcome _ _ _) as [[]|e]; simpl; [close_adds|].
  close_adds_caught e.
Qed.

Ltac close_returns Hp ok :=
  simpl; rewrite ?Hp; simpl; exists ok; eexists;
  (split; [flatten_history; reflexivity|]); simpl; auto.

(** In a world that raises only instances of [Exception] and whose
    standard output takes every line, the call returns a boolean, and the
    line of a saved avatar is printed exactly when it returns [True]. *)
Lemma download_avatar_returns :
  only_exceptions w ->
  prints_succeed w ->
  exists (ok : bool) (new : history),
    run = (Return ok, (h ++ new)%list) /\
    saved new = (if ok then 1 else 0)%nat /\
    gets new = [url] /\
    items new = [] /\
    summaries new = [].
Proof.
  intros (Hg & Hm & Ho & Hw) Hp.
  run_download. rewrite Hurl.
  destruct (get_outcome w h url) as [r|e] eqn:Eg;
    [|apply Hg in Eg; destruct e; try discriminate Eg; close_returns Hp false].
  destruct (raise_for_status r) as [[]|e] eqn:Es; simpl.
  2: { unfold raise_for_status in Es.
       destruct ((400 <=? status_code r) && (status_code r <? 600));
         [injection Es as <- | discriminate Es].
       close_returns Hp false. }
  destruct (makedirs_outcome _ _ _ _) as [[]|e] eqn:Em; simpl;
    [|apply Hm in Em; destruct e; try discriminate Em; close_returns Hp false].
  destruct (open_outcome _ _ _) as [[]|e] eqn:Eo; simpl;
    [|apply Ho in Eo; destruct e; try discriminate Eo; close_returns Hp false].
  destruct (write_outcome _ _ _ _) as [[]|e] eqn:Ew; simpl;
    [|apply Hw in Ew; destruct e; try discriminate Ew; close_returns Hp false].
  close_returns Hp true.
Qed.

End DownloadFacts.

(** C5, as the code has it.  Once the URL is built, [download_avatar]
    sends one GET request and never a second one.  The first error met
    in the [try] block stops the remaining steps: an exception raised by
    the request (connection, timeout), a status from 400 to 599, an
    exception raised while creating the directory, opening or writing the
    file, or while printing the line of a saved avatar.  When that error
    is an instance of [Exception], one line is printed for it, and the
    immediate caller gets the return value [False], the same for every
    kind of error, provided that line can be printed; when printing it
    raises, the caller gets the exception of [print].  An error that is
    not an instance of [Exception] goes to the caller as it is. *)
Theorem download_reports_first_error_as_false
        (w : World) (qq : qq_t) (save_path : option string) (hd : bool)
        (size : Z) (h : history) (url : string) :
  get_avatar_url init qq hd size = Return url ->
  let path := save_path_or_default qq save_path hd in
  let dir := os_path_dirname (abspath w path) in
  let run := download_avatar w init qq save_path hd size h in
  let reported (e : exn) (h' : history) : Prop :=
    (is_Exception e = true ->
     print_outcome w h' (failure_line e) = Return tt ->
     run = (Return false, h' ++ [EvPrint (failure_line e)])%list)
    /\
    (is_Exception e = true ->
     forall e', print_outcome w h' (failure_line e) = Raise e' ->
                run = (Raise e', h' ++ [EvPrint (failure_line e)])%list)
    /\
    (is_Exception e = false -> run = (Raise e, h')) in
  gets (snd run) = (gets h ++ [url])%list
  /\
  (forall e,
      get_outcome w h url = Raise e ->
      reported e (h ++ [EvGet url])%list)
  /\
  (forall r,
      get_outcome w h url = Return r ->
      400 <= status_code r < 600 ->
      reported (RequestException (HTTPError (status_code r)))
               (h ++ [EvGet url])%list)
  /\
  (forall r e,
      get_outcome w h url = Return r ->
      ~ 400 <= status_code r < 600 ->
      makedirs_outcome w (h ++ [EvGet url])%list dir true = Raise e ->
      reported e (h ++ [EvGet url; EvMakedirs dir true])%list)
  /\
  (forall r e,
      get_outcome w h url = Return r ->
      ~ 400 <= status_code r < 600 ->
      makedirs_outcome w (h ++ [EvGet url])%list dir true = Return tt ->
      open_outcome w (h ++ [EvGet url; EvMakedirs dir true])%list path = Raise e ->
      reported e (h ++ [EvGet url; EvMakedirs dir true; EvOpen path])%list)
  /\
  (forall r e,
      get_outcome w h url = Return r ->
      ~ 400 <= status_code r < 600 ->
      makedirs_outcome w (h ++ [EvGet url])%list dir true = Return tt ->
      open_outcome w (h ++ [EvGet url; EvMakedirs dir true])%list path = Return tt ->
      write_outcome w (h ++ [EvGet url; EvMakedirs dir true; EvOpen path])%list
                    path (content r) = Raise e ->
      reported e (h ++ [EvGet url; EvMakedirs dir true; EvOpen path;
                        EvWrite path (content r)])%list)
  /\
  (forall r e,
      get_outcome w h url = Return r ->
      ~ 400 <= status_code r < 600 ->
      makedirs_outcome w (h ++ [EvGet url])%list dir true = Return tt ->
      open_outcome w (h ++ [EvGet url; EvMakedirs dir true])%list path = Return tt ->
      write_outcome w (h ++ [EvGet url; EvMakedirs dir true; EvOpen path])%list
                    path (content r) = Return tt ->
      print_outcome w (h ++ [EvGet url; EvMakedirs dir true; EvOpen path;
                             EvWrite path (content r)])%list
                    (MsgSaved path (List.length (content r))) = Raise e ->
      reported e (h ++ [EvGet url; EvMakedirs dir true; EvOpen path;
                        EvWrite path (content r);
                        EvPrint (MsgSaved path (List.length (content r)))])%list).
Proof.
  intros Hurl path dir run reported. subst reported.
  split.
  { destruct (download_avatar_adds w qq save_path hd size h url Hurl)
      as (new & Hnew & Hgets & _).
    subst run. rewrite Hnew, gets_app, Hgets. reflexivity. }
  split; [intros e Hget; now apply download_avatar_request_raises|].
  split; [intros r Hget Hst; now apply download_avatar_error_status|].
  split; [intros r e Hget Hst Hmk;
          now apply download_avatar_makedirs_raises with (r := r)|].
  split; [intros r e Hget Hst Hmk Hop;
          now apply download_avatar_open_raises with (r := r)|].
  split; [intros r e Hget Hst Hmk Hop Hwr;
          now apply download_avatar_write_raises|].
  intros r e Hget Hst Hmk Hop Hwr Hpr.
  now apply download_avatar_saved_line_raises.
Qed.

Lemma download_reports_first_error_as_false_witness :
  download_avatar (steady_world (Return (status_response 404))) init
                  (QStr "10001") None true 640 [] =
  (Return false,
   [EvGet "http://q.qlogo.cn/headimg_dl?dst_uin=10001&spec=640&img_type=jpg";
    EvPrint (MsgDownloadFailed (RequestException (HTTPError 404)))])
  /\
  download_avatar (gbk_stdout_world (Return (status_response 404))) init
                  (QStr "10001") None true 640 [] =
  (Raise ValueError,
   [EvGet "http://q.qlogo.cn/headimg_dl?dst_uin=10001&spec=640&img_type=jpg";
    EvPrint (MsgDownloadFailed (RequestException (HTTPError 404)))]).
Proof.
  split.
  - apply (proj1 (proj1 (proj2 (proj2
             (download_reports_first_error_as_false
                (steady_world (Return (status_response 404))) (QStr "10001")
                None true 640 []
                "http://q.qlogo.cn/headimg_dl?dst_uin=10001&spec=640&img_type=jpg"
                eq_refl)))
             (status_response 404) eq_refl ltac:(simpl; lia)));
      reflexivity.
  - apply (proj1 (proj2 (proj1 (proj2 (proj2
             (download_reports_first_error_as_false
                (gbk_stdout_world (Return (status_response 404)))
                (QStr "10001") None true 640 []
                "http://q.qlogo.cn/headimg_dl?dst_uin=10001&spec=640&img_type=jpg"
                eq_refl)))
             (status_response 404) eq_refl ltac:(simpl; lia))));
      reflexivity.
Defined.

(** C5, as the specification words it, fails: a status 404, a timeout
    and a full disk all give the caller the same value [False], which
    names no kind of error; a status outside 200-299 that is not an
    error status (304) counts as a success; and on a standard output that
    cannot encode the line of the failure, what the caller gets for a
    status 404 is the exception of [print]. *)
Lemma download_errors_are_not_told_apart :
  fst (download_avatar (steady_world (Return (status_response 404))) init
                       (QStr "10001") None true 640 []) = Return false
  /\
  fst (download_avatar (steady_world (Raise (RequestException Timeout))) init
                       (QStr "10001") None true 640 []) = Return false
  /\
  fst (download_avatar (full_disk_world (Return ok_response)) init
                       (QStr "10001") None true 640 []) = Return false
  /\
  fst (download_avatar (steady_world (Return (status_response 304))) init
                       (QStr "10001") None true 640 []) = Return true
  /\
  fst (download_avatar (gbk_stdout_world (Return (status_response 404))) init
                       (QStr "10001") None true 640 []) = Raise ValueError.
Proof. repeat split; reflexivity. Qed.




(** ** The existence probe *)

Ltac run_check :=
  unfold check_avatar_exists, requests_head,
         bind, lift, try_except, perform, ret; simpl.

Section CheckFacts.

Variable w : World.
Variable qq : qq_t.
Variable hd : bool.
Variable h : history.

Lemma check_avatar_exists_url_raises (e : exn) :
  get_avatar_url init qq hd 640 = Raise e ->
  check_avatar_exists w init qq hd h = (Raise e, h).
Proof. intros Hurl. run_check. now rewrite Hurl. Qed.

Lemma check_avatar_exists_answered (url : string) (r : response) :
  get_avatar_url init qq hd 640 = Return url ->
  head_outcome w h url = Return r ->
  check_avatar_exists w init qq hd h =
  (Return (status_code r =? 200), h ++ [EvHead url])%list.
Proof. intros Hurl Hhead. run_check. now rewrite Hurl, Hhead. Qed.

Lemma check_avatar_exists_swallows (url : string) (e : exn) :
  get_avatar_url init qq hd 640 = Return url ->
  head_outcome w h url = Raise e ->
  check_avatar_exists w init qq hd h = (Return false, h ++ [EvHead url])%list.
Proof. intros Hurl Hhead. run_check. now rewrite Hurl, Hhead. Qed.

End CheckFacts.

(** C4, as the code has it.  [check_avatar_exists] returns [True] exactly
    when the HEAD request is answered with status 200; it returns [False]
    for every other status and for everything the request raises, none of
    which reaches the caller.  What it does raise is the [ValueError] of
    the URL construction, for the standard quality and an identifier that
    [int] rejects, before any request is sent. *)
Theorem check_exists_true_only_on_200
        (w : World) (qq : qq_t) (hd : bool) (h : history) :
  let run := check_avatar_exists w init qq hd h in
  (fst run = Return true <->
   exists url r,
     get_avatar_url init qq hd 640 = Return url /\
     head_outcome w h url = Return r /\
     status_code r = 200)
  /\
  (forall url,
      get_avatar_url init qq hd 640 = Return url ->
      (forall r, head_outcome w h url = Return r -> status_code r <> 200 ->
                 run = (Return false, h ++ [EvHead url])%list)
      /\
      (forall e, head_outcome w h url = Raise e ->
                 run = (Return false, h ++ [EvHead url])%list))
  /\
  ((exists e, fst run = Raise e) <->
   (hd = false /\ int_of_str (str_of_qq qq) = None))
  /\
  (hd = false -> int_of_str (str_of_qq qq) = None ->
   run = (Raise ValueError, h)).
Proof.
  intros run. subst run.
  assert (Hinvalid : hd = false -> int_of_str (str_of_qq qq) = None ->
                     check_avatar_exists w init qq hd h = (Raise ValueError, h)).
  { intros -> Hn. apply check_avatar_exists_url_raises.
    now apply get_avatar_url_invalid. }
  split; [|split; [|split]].
  - split.
    + destruct (get_avatar_url init qq hd 640) as [url|e] eqn:Hurl.
      * destruct (head_outcome w h url) as [r|e] eqn:Hhead.
        -- rewrite (check_avatar_exists_answered w qq hd h url r Hurl Hhead).
           simpl. intros [= Hst]. exists url, r.
           apply Z.eqb_eq in Hst. auto.
        -- rewrite (check_avatar_exists_swallows w qq hd h url e Hurl Hhead).
           discriminate.
      * rewrite (check_avatar_exists_url_raises w qq hd h e Hurl). discriminate.
    + intros (url & r & Hurl & Hhead & Hst).
      rewrite (check_avatar_exists_answered w qq hd h url r Hurl Hhead).
      simpl. now rewrite Hst.
  - intros url Hurl. split.
    + intros r Hhead Hst.
      rewrite (check_avatar_exists_answered w qq hd h url r Hurl Hhead).
      apply Z.eqb_neq in Hst. now rewrite Hst.
    + intros e Hhead.
      now apply check_avatar_exists_swallows with (e := e).
  - split.
    + intros [e He].
      destruct (get_avatar_url init qq hd 640) as [url|e'] eqn:Hurl.
      * destruct (head_outcome w h url) as [r|e''] eqn:Hhead.
        -- rewrite (check_avatar_exists_answered w qq hd h url r Hurl Hhead) in He.
           discriminate.
        -- rewrite (check_avatar_exists_swallows w qq hd h url e'' Hurl Hhead) in He.
           discriminate.
      * destruct hd.
        -- rewrite get_avatar_url_hd in Hurl. discriminate.
        -- split; [reflexivity|].
           destruct (int_of_str (str_of_qq qq)) as [n|] eqn:Hn; [|reflexivity].
           rewrite (get_avatar_url_normal qq 640 n Hn) in Hurl. discriminate.
    + intros [Hhd Hn]. exists ValueError. now rewrite Hinvalid.
  - exact Hinvalid.
Qed.

Lemma check_exists_true_only_on_200_witness :
  check_avatar_exists (steady_world (Return (status_response 404))) init
                      (QStr "10001") true []
  = (Return false,
     [EvHead "http://q.qlogo.cn/headimg_dl?dst_uin=10001&spec=640&img_type=jpg"])
  /\
  check_avatar_exists (steady_world (Raise KeyboardInterrupt)) init
                      (QStr "10001") false []
  = (Return false, [EvHead "http://q2.qlogo.cn/g?b=qq&nk=10001&s=140"]).
Proof.
  split.
  - apply (proj1 (proj1 (proj2
             (check_exists_true_only_on_200
                (steady_world (Return (status_response 404)))
                (QStr "10001") true []))
             "http://q.qlogo.cn/headimg_dl?dst_uin=10001&spec=640&img_type=jpg"
             eq_refl)
             (status_response 404)).
    + reflexivity.
    + discriminate.
  - apply (proj2 (proj1 (proj2
             (check_exists_true_only_on_200
                (steady_world (Raise KeyboardInterrupt))
                (QStr "10001") false []))
             "http://q2.qlogo.cn/g?b=qq&nk=10001&s=140"
             eq_refl)
             KeyboardInterrupt).
    reflexivity.
Defined.

(** The probe in four worlds: status 200, status 404, a timeout, and an
    interruption of the request. *)
Example check_scenarios :
  fst (check_avatar_exists (steady_world (Return ok_response)) init
                           (QStr "10001") true []) = Return true /\
  fst (check_avatar_exists (steady_world (Return (status_response 404))) init
                           (QStr "10001") true []) = Return false /\
  fst (check_avatar_exists (steady_world (Raise (RequestException Timeout))) init
                           (QStr "10001") true []) = Return false /\
  fst (check_avatar_exists (steady_world (Raise KeyboardInterrupt)) init
                           (QStr "10001") true []) = Return false.
Proof. repeat split; reflexivity. Qed.

(** C4, as the specification words it, fails: with the standard quality
    and an identifier that is not a number, the caller gets an exception
    and no request is sent. *)
Lemma check_exists_raises_on_invalid_identifier :
  check_avatar_exists (steady_world (Return ok_response)) init
                      (QStr "abc") false [] = (Raise ValueError, []).
Proof. reflexivity. Qed.

(** ** The batch *)

Section BatchFacts.

Variable w : World.
Variable output_dir : string.
Variable hd : bool.
Variable size : Z.
Variable n : nat.

Local Abbreviation url_of := (fun qq : qq_t => get_avatar_url init qq hd size).
Local Abbreviation path_of qq :=
  (os_path_join output_dir (str_of_qq qq ++ quality_suffix hd)).
Local Abbreviation loop := (batch_loop w init output_dir hd size n).

(** One turn of the loop: the progress line, then the download. *)
Lemma batch_loop_cons (i : nat) (qq : qq_t) (rest : list qq_t) (k : nat)
      (h : history) :
  loop i (qq :: rest) k h =
  match print_outcome w h (MsgItem i n qq) with
  | Raise e => (Raise e, (h ++ [EvPrint (MsgItem i n qq)])%list)
  | Return _ =>
      match download_avatar w init qq (Some (path_of qq)) hd size
                            (h ++ [EvPrint (MsgItem i n qq)])%list with
      | (Return ok, h') => loop (S i) rest (if ok then S k else k) h'
      | (Raise e, h') => (Raise e, h')
      end
  end.
Proof.
  cbn [batch_loop]. unfold bind at 1. unfold print at 1. unfold perform at 1.
  destruct (print_outcome w h (MsgItem i n qq)) as [[]|e]; reflexivity.
Qed.

(** The loop over a list in two pieces. *)
Lemma batch_loop_app (pre rest : list qq_t) :
  forall (i k : nat) (h : history),
    loop i (pre ++ rest)%list k h =
    match loop i pre k h with
    | (Return k', h') => loop (i + List.length pre)%nat rest k' h'
    | (Raise e, h') => (Raise e, h')
    end.
Proof.
  induction pre as [|qq pre IH]; intros i k h.
  - simpl. now rewrite Nat.add_0_r.
  - change ((qq :: pre) ++ rest)%list with (qq :: (pre ++ rest))%list.
    rewrite !batch_loop_cons.
    destruct (print_outcome w h (MsgItem i n qq)) as [[]|e]; [|reflexivity].
    destruct (download_avatar _ _ _ _ _ _ _) as [[ok|e] h']; [|reflexivity].
    rewrite IH. simpl List.length. now rewrite Nat.add_succ_r.
Qed.

(** An identifier that [int] rejects stops the loop of the standard
    quality at its progress line, in any world. *)
Lemma batch_loop_invalid_stops (i : nat) (bad : qq_t) (post : list qq_t)
      (k : nat) (h : history) :
  hd = false ->
  int_of_str (str_of_qq bad) = None ->
  exists e,
    loop i (bad :: post) k h = (Raise e, h ++ [EvPrint (MsgItem i n bad)])%list.
Proof.
  intros Hhd Hbad. rewrite batch_loop_cons.
  destruct (print_outcome w h (MsgItem i n bad)) as [[]|e]; [|now exists e].
  rewrite (download_avatar_url_raises w bad (Some (path_of bad)) hd size
             (h ++ [EvPrint (MsgItem i n bad)])%list ValueError);
    [now exists ValueError|].
  subst hd. now apply get_avatar_url_invalid.
Qed.

(** When the progress line can be printed, what stops the loop is the
    [ValueError] of the identifier. *)
Lemma batch_loop_invalid (i : nat) (bad : qq_t) (post : list qq_t) (k : nat)
      (h : history) :
  hd = false ->
  int_of_str (str_of_qq bad) = None ->
  print_outcome w h (MsgItem i n bad) = Return tt ->
  loop i (bad :: post) k h =
  (Raise ValueError, h ++ [EvPrint (MsgItem i n bad)])%list.
Proof.
  intros Hhd Hbad Hpr. rewrite batch_loop_cons, Hpr.
  rewrite (download_avatar_url_raises w bad (Some (path_of bad)) hd size
             (h ++ [EvPrint (MsgItem i n bad)])%list ValueError); [reflexivity|].
  subst hd. now apply get_avatar_url_invalid.
Qed.

(** What one call of [download_avatar] adds, whether the URL can be
    built or not. *)
Lemma download_avatar_adds_at_most (qq : qq_t) (save_path : option string)
      (h : history) :
  exists new : history,
    snd (download_avatar w init qq save_path hd size h) = (h ++ new)%list /\
    items new = [] /\
    summaries new = [] /\
    (List.length (gets new) <= 1)%nat.
Proof.
  destruct (get_avatar_url init qq hd size) as [url|e] eqn:Hurl.
  - destruct (download_avatar_adds w qq save_path hd size h url Hurl)
      as (new & Hnew & Hgets & Hitems & Hsum & _).
    exists new. rewrite Hgets. simpl. auto.
  - exists []. rewrite (download_avatar_url_raises w qq save_path hd size h e Hurl).
    simpl. rewrite app_nil_r. auto.
Qed.

(** In any world the loop only goes forward through the list: the
    identifiers it announced are the first ones of the list, all of them
    when it returns, and it sent at most one request for each. *)
Lemma batch_loop_goes_forward (qqs : list qq_t) :
  forall (i k : nat) (h : history),
  exists new : history,
    snd (loop i qqs k h) = (h ++ new)%list /\
    summaries new = [] /\
    (exists rest, (items new ++ rest)%list = qqs) /\
    (List.length (gets new) <= List.length (items new))%nat /\
    (forall k', fst (loop i qqs k h) = Return k' -> items new = qqs).
Proof.
  induction qqs as [|qq qqs IH]; intros i k h.
  - exists []. simpl. rewrite app_nil_r.
    repeat split; auto. now exists [].
  - rewrite batch_loop_cons.
    destruct (print_outcome w h (MsgItem i n qq)) as [[]|e].
    2: { exists [EvPrint (MsgItem i n qq)]. simpl.
         split; [reflexivity|]. split; [reflexivity|].
         split; [now exists qqs|]. split; [lia | discriminate]. }
    destruct (download_avatar_adds_at_most qq (Some (path_of qq))
                (h ++ [EvPrint (MsgItem i n qq)])%list)
      as (new1 & Hnew1 & Hitems1 & Hsum1 & Hgets1).
    destruct (download_avatar _ _ _ _ _ _ _) as [[ok|e] h1];
      simpl in Hnew1; subst h1.
    + destruct (IH (S i) (if ok then S k else k)
                   ((h ++ [EvPrint (MsgItem i n qq)]) ++ new1)%list)
        as (new2 & Hnew2 & Hsum2 & [rest Hrest] & Hgets2 & Hret).
      exists ([EvPrint (MsgItem i n qq)] ++ new1 ++ new2)%list.
      rewrite Hnew2.
      rewrite !summaries_app, !items_app, !gets_app, Hsum1, Hsum2, Hitems1.
      rewrite !length_app. simpl.
      split; [now flatten_history|]. split; [reflexivity|].
      split; [exists rest; now rewrite Hrest|].
      split; [lia|].
      intros k' Hk'. now rewrite (Hret k' Hk').
    + exists ([EvPrint (MsgItem i n qq)] ++ new1)%list.
      rewrite !summaries_app, !items_app, !gets_app, Hsum1, Hitems1.
      rewrite !length_app. simpl.
      split; [now flatten_history|]. split; [reflexivity|].
      split; [now exists qqs|].
      split; [lia|].
      discriminate.
Qed.

(** In a world that raises only instances of [Exception] and whose
    standard output takes every line, and when every URL can be built,
    the loop goes through the whole list, with one request for each
    identifier, and counts the avatars saved. *)
Lemma batch_loop_completes (qqs : list qq_t) :
  only_exceptions w ->
  prints_succeed w ->
  (forall qq, In qq qqs -> exists url, url_of qq = Return url) ->
  forall (i k : nat) (h : history),
  exists new : history,
    loop i qqs k h = (Return (k + saved new)%nat, (h ++ new)%list) /\
    items new = qqs /\
    map Return (gets new) = map url_of qqs /\
    summaries new = [] /\
    (saved new <= List.length qqs)%nat.
Proof.
  intros Hw Hp. induction qqs as [|qq qqs IH]; intros Hurls i k h.
  - exists []. simpl. rewrite app_nil_r, Nat.add_0_r. auto.
  - rewrite batch_loop_cons, Hp.
    destruct (Hurls qq (or_introl eq_refl)) as [url Hurl].
    destruct (download_avatar_returns w qq (Some (path_of qq)) hd size
                (h ++ [EvPrint (MsgItem i n qq)])%list url Hurl Hw Hp)
      as (ok & new1 & Hrun & Hsaved1 & Hgets1 & Hitems1 & Hsum1).
    rewrite Hrun.
    destruct (IH (fun q Hq => Hurls q (or_intror Hq))
                 (S i) (if ok then S k else k)
                 ((h ++ [EvPrint (MsgItem i n qq)]) ++ new1)%list)
      as (new2 & Hloop & Hitems2 & Hgets2 & Hsum2 & Hle).
    exists ([EvPrint (MsgItem i n qq)] ++ new1 ++ new2)%list.
    rewrite Hloop.
    rewrite !summaries_app, !items_app, !gets_app, !saved_app.
    rewrite Hsum1, Hsum2, Hitems1, Hitems2, Hgets1, Hsaved1.
    simpl. rewrite Hgets2, Hurl.
    split; [|split; [reflexivity|split; [reflexivity|split; [reflexivity|]]]].
    + flatten_history. f_equal. f_equal. destruct ok; lia.
    + destruct ok; lia.
Qed.

End BatchFacts.

Ltac run_batch :=
  unfold batch_download, os_path_exists, os_makedirs, print,
         bind, perform, ret; simpl.

Lemma steady_world_only_exceptions (r : response) :
  only_exceptions (steady_world (Return r)).
Proof. repeat split; simpl; intros; discriminate. Qed.

Lemma flaky_world_only_exceptions (k : nat) (r : response) :
  only_exceptions (flaky_world k (Return r)).
Proof.
  repeat split; simpl; intros; try discriminate.
  destruct (List.length (gets h) =? k)%nat; [|discriminate].
  now injection H as <-.
Qed.

Lemma steady_world_prints_succeed (r : result response) :
  prints_succeed (steady_world r).
Proof. intros h m. reflexivity. Qed.

Lemma flaky_world_prints_succeed (k : nat) (r : result response) :
  prints_succeed (flaky_world k r).
Proof. intros h m. reflexivity. Qed.

Lemma gbk_stdout_world_only_exceptions (r : response) :
  only_exceptions (gbk_stdout_world (Return r)).
Proof. repeat split; simpl; intros; discriminate. Qed.

Lemma valid_identifiers_have_urls (qq_list : list qq_t) (hd : bool) (size : Z) :
  (hd = false ->
   forall qq, In qq qq_list -> int_of_str (str_of_qq qq) <> None) ->
  forall qq, In qq qq_list ->
    exists url, get_avatar_url init qq hd size = Return url.
Proof.
  intros Hvalid qq Hin. destruct hd.
  - eexists. apply get_avatar_url_hd.
  - destruct (int_of_str (str_of_qq qq)) as [m|] eqn:Hm.
    + eexists. now apply get_avatar_url_normal with (n := m).
    + now destruct (Hvalid eq_refl qq Hin).
Qed.

Lemma setup_events_quiet (present : bool) (output_dir : string) (n : nat) :
  items (setup_events present output_dir n) = [] /\
  gets (setup_events present output_dir n) = [] /\
  writes (setup_events present output_dir n) = [] /\
  summaries (setup_events present output_dir n) = [] /\
  saved (setup_events present output_dir n) = 0%nat /\
  progress (setup_events present output_dir n) = [].
Proof. destruct present; repeat split; reflexivity. Qed.

(** [batch_download], once its directory is there and when every line
    can be printed: the loop, between the opening and the closing line. *)
Lemma batch_download_after_setup
      (w : World) (qq_list : list qq_t) (output_dir : string) (hd : bool)
      (size : Z) (h : history) :
  prints_succeed w ->
  (exists_outcome w h output_dir = true \/
   makedirs_outcome w (h ++ [EvExists output_dir])%list output_dir false
   = Return tt) ->
  batch_download w init qq_list output_dir hd size h =
  match batch_loop w init output_dir hd size (List.length qq_list) 1 qq_list 0
          (h ++ setup_events (exists_outcome w h output_dir) output_dir
                             (List.length qq_list))%list with
  | (Return k, h') =>
      (Return tt, (h' ++ [EvPrint (MsgBatchDone k (List.length qq_list))])%list)
  | (Raise e, h') => (Raise e, h')
  end.
Proof.
  intros Hp Hsetup. run_batch.
  destruct (exists_outcome w h output_dir) eqn:Hex; simpl.
  - rewrite Hp. rewrite <- app_assoc. simpl.
    destruct (batch_loop _ _ _ _ _ _ _ _ _ _) as [[k|e] h']; [|reflexivity].
    now rewrite Hp.
  - destruct Hsetup as [Habs|Hmk]; [discriminate Habs|]. rewrite Hmk.
    rewrite Hp. rewrite <- !app_assoc. simpl.
    destruct (batch_loop _ _ _ _ _ _ _ _ _ _) as [[k|e] h']; [|reflexivity].
    now rewrite Hp.
Qed.

(** [batch_download] in any world: either it stops before its loop (the
    directory cannot be made, the opening line cannot be printed), or it
    runs its loop and, when the loop returns, prints the closing line. *)
Lemma batch_download_cases
      (w : World) (qq_list : list qq_t) (output_dir : string) (hd : bool)
      (size : Z) (h : history) :
  exists pre : history,
    (items pre = [] /\ gets pre = [] /\ writes pre = [] /\
     summaries pre = [] /\ progress pre = [])
    /\
    ((exists e,
         batch_download w init qq_list output_dir hd size h
         = (Raise e, (h ++ pre)%list))
     \/
     batch_download w init qq_list output_dir hd size h =
     match batch_loop w init output_dir hd size (List.length qq_list) 1
                      qq_list 0 (h ++ pre)%list with
     | (Return k, h') =>
         (match print_outcome w h' (MsgBatchDone k (List.length qq_list)) with
          | Return _ => Return tt
          | Raise e => Raise e
          end,
          (h' ++ [EvPrint (MsgBatchDone k (List.length qq_list))])%list)
     | (Raise e, h') => (Raise e, h')
     end).
Proof.
  set (n := List.length qq_list). run_batch. fold n.
  destruct (exists_outcome w h output_dir); simpl.
  - destruct (print_outcome w _ (MsgBatchStart n)) as [[]|e] eqn:Hstart.
    + exists [EvExists output_dir; EvPrint (MsgBatchStart n)].
      split; [repeat split; reflexivity|]. right.
      rewrite <- app_assoc. simpl.
      destruct (batch_loop _ _ _ _ _ _ _ _ _ _) as [[k|e] h']; [|reflexivity].
      now destruct (print_outcome w h' (MsgBatchDone k n)) as [[]|e].
    + exists [EvExists output_dir; EvPrint (MsgBatchStart n)].
      split; [repeat split; reflexivity|]. left. exists e.
      now rewrite <- app_assoc.
  - destruct (makedirs_outcome w _ output_dir false) as [[]|e]; simpl.
    + destruct (print_outcome w _ (MsgBatchStart n)) as [[]|e] eqn:Hstart.
      * exists [EvExists output_dir; EvMakedirs output_dir false;
                EvPrint (MsgBatchStart n)].
        split; [repeat split; reflexivity|]. right.
        rewrite <- !app_assoc. simpl.
        destruct (batch_loop _ _ _ _ _ _ _ _ _ _) as [[k|e] h']; [|reflexivity].
        now destruct (print_outcome w h' (MsgBatchDone k n)) as [[]|e].
      * exists [EvExists output_dir; EvMakedirs output_dir false;
                EvPrint (MsgBatchStart n)].
        split; [repeat split; reflexivity|]. left. exists e.
        now rewrite <- !app_assoc.
    + exists [EvExists output_dir; EvMakedirs output_dir false].
      split; [repeat split; reflexivity|]. left. exists e.
      now rewrite <- !app_assoc.
Qed.

(** C6, as the code has it.  In a world that raises only instances of
    [Exception] and whose standard output takes every line, once the
    output directory is there, and when the URL of every identifier can be
    built (which is always so for the high-definition quality),
    [batch_download] goes through every identifier in the order of the
    list, sending one request for each, whether the downloads before it
    failed or not; it returns nothing, and its last printed line gives
    the number of avatars saved out of the length of the list. *)
Theorem batch_continues_after_failed_downloads
        (w : World) (qq_list : list qq_t) (output_dir : string) (hd : bool)
        (size : Z) (h : history) :
  only_exceptions w ->
  prints_succeed w ->
  (exists_outcome w h output_dir = true \/
   makedirs_outcome w (h ++ [EvExists output_dir])%list output_dir false
   = Return tt) ->
  (hd = false ->
   forall qq, In qq qq_list -> int_of_str (str_of_qq qq) <> None) ->
  exists new : history,
    batch_download w init qq_list output_dir hd size h =
    (Return tt,
     h ++ new ++ [EvPrint (MsgBatchDone (saved new) (List.length qq_list))])%list
    /\ items new = qq_list
    /\ map Return (gets new)
       = map (fun qq => get_avatar_url init qq hd size) qq_list
    /\ (saved new <= List.length qq_list)%nat.
Proof.
  intros Hw Hp Hsetup Hvalid.
  pose proof (valid_identifiers_have_urls qq_list hd size Hvalid) as Hurls.
  rewrite batch_download_after_setup by assumption.
  match goal with
  | |- context [batch_loop _ _ _ _ _ _ _ _ _ ?h0] =>
      destruct (batch_loop_completes w output_dir hd size
                  (List.length qq_list) qq_list Hw Hp Hurls 1%nat 0%nat h0)
        as (new & Hloop & Hitems & Hgets & _ & Hle)
  end.
  rewrite Hloop.
  match goal with
  | |- context [setup_events ?b ?d ?n] =>
      destruct (setup_events_quiet b d n)
        as (Hi0 & Hg0 & _ & _ & Hs0 & _);
      exists (setup_events b d n ++ new)%list
  end.
  rewrite items_app, gets_app, saved_app, Hi0, Hg0, Hs0.
  cbn [app Nat.add].
  split; [|auto].
  f_equal. now rewrite <- !app_assoc.
Qed.

Lemma batch_continues_after_failed_downloads_witness :
  exists new : history,
    batch_download (flaky_world 1 (Return ok_response)) init
                   [QStr "10001"; QStr "10002"; QStr "10003"]
                   "avatars" true 640 [] =
    (Return tt, [] ++ new ++ [EvPrint (MsgBatchDone (saved new) 3)])%list
    /\ items new = [QStr "10001"; QStr "10002"; QStr "10003"]
    /\ map Return (gets new)
       = map (fun qq => get_avatar_url init qq true 640)
             [QStr "10001"; QStr "10002"; QStr "10003"]
    /\ (saved new <= 3)%nat.
Proof.
  apply (batch_continues_after_failed_downloads
           (flaky_world 1 (Return ok_response))
           [QStr "10001"; QStr "10002"; QStr "10003"] "avatars" true 640 []).
  - apply flaky_world_only_exceptions.
  - apply flaky_world_prints_succeed.
  - right. reflexivity.
  - discriminate.
Defined.

(** C6, as the specification words it, fails: an identifier that is not
    a number stops a batch of the standard quality, the identifiers after
    it are never tried and no closing line is printed; what the method
    returns is the same whether its downloads succeed or fail; and on a
    standard output that cannot encode the line of a failed download, the
    first download that fails stops the batch with the exception of
    [print]. *)
Lemma batch_aborts_on_invalid_identifier :
  batch_download (steady_world (Return ok_response)) init
                 [QStr "abc"; QStr "10001"] "avatars" false 640 []
  = (Raise ValueError,
     [EvExists "avatars"; EvMakedirs "avatars" false;
      EvPrint (MsgBatchStart 2); EvPrint (MsgItem 1 2 (QStr "abc"))])
  /\
  fst (batch_download (steady_world (Return ok_response)) init
                      [QStr "10001"] "avatars" true 640 [])
  = fst (batch_download (steady_world (Raise (RequestException Timeout))) init
                        [QStr "10001"] "avatars" true 640 [])
  /\
  batch_download (gbk_stdout_world (Raise (RequestException Timeout))) init
                 [QStr "10001"; QStr "10002"] "avatars" true 640 []
  = (Raise ValueError,
     [EvExists "avatars"; EvMakedirs "avatars" false;
      EvPrint (MsgBatchStart 2); EvPrint (MsgItem 1 2 (QStr "10001"));
      EvGet "http://q.qlogo.cn/headimg_dl?dst_uin=10001&spec=640&img_type=jpg";
      EvPrint (MsgDownloadFailed (RequestException Timeout))]).
Proof. repeat split; reflexivity. Qed.

(** The scenario of the specification: three identifiers, the download
    of the second one fails, the third one is still tried. *)
Example batch_scenario_two_of_three :
  let h := snd (batch_download (flaky_world 1 (Return ok_response)) init
                               [QStr "10001"; QStr "10002"; QStr "10003"]
                               "avatars" true 640 []) in
  summaries h = [(2%nat, 3%nat)] /\
  List.length (gets h) = 3%nat /\
  writes h = ["avatars/10001_hd.jpg"; "avatars/10003_hd.jpg"].
Proof. repeat split; reflexivity. Qed.

(** C9.  The URL is built before the [try] of [download_avatar]: with
    the standard quality and an identifier that [int] rejects, the call
    raises [ValueError] to its caller and does nothing else.  So a batch
    of the standard quality that contains such an identifier never
    returns: it stops at that identifier at the latest, no identifier
    after it is announced or requested, no closing line is printed; and
    when nothing else goes wrong before, it is this [ValueError] that
    ends the batch, right after the progress line of the identifier. *)
Theorem invalid_identifier_escapes_and_aborts_batch
        (w : World) (bad : qq_t) (save_path : option string)
        (pre post : list qq_t) (output_dir : string) (size : Z) (h : history) :
  int_of_str (str_of_qq bad) = None ->
  download_avatar w init bad save_path false size h = (Raise ValueError, h)
  /\
  (exists (e : exn) (new : history),
      batch_download w init (pre ++ bad :: post) output_dir false size h
      = (Raise e, (h ++ new)%list) /\
      summaries new = [] /\
      (exists rest, (items new ++ rest = pre ++ [bad])%list) /\
      (List.length (gets new) <= List.length pre)%nat)
  /\
  (only_exceptions w ->
   prints_succeed w ->
   (exists_outcome w h output_dir = true \/
    makedirs_outcome w (h ++ [EvExists output_dir])%list output_dir false
    = Return tt) ->
   (forall qq, In qq pre -> int_of_str (str_of_qq qq) <> None) ->
   exists new : history,
     batch_download w init (pre ++ bad :: post) output_dir false size h
     = (Raise ValueError, (h ++ new)%list) /\
     items new = (pre ++ [bad])%list /\
     map Return (gets new)
     = map (fun qq => get_avatar_url init qq false size) pre /\
     summaries new = []).
Proof.
  intros Hbad.
  set (n := List.length (pre ++ bad :: post)).
  (* The loop, from any history [h1]. *)
  assert (Hloop : forall h1,
    exists (e : exn) (new : history),
      batch_loop w init output_dir false size n 1 (pre ++ bad :: post) 0 h1
      = (Raise e, (h1 ++ new)%list) /\
      summaries new = [] /\
      (exists rest, (items new ++ rest = pre ++ [bad])%list) /\
      (List.length (gets new) <= List.length pre)%nat).
  { intros h1. rewrite batch_loop_app.
    destruct (batch_loop_goes_forward w output_dir false size n pre 1 0 h1)
      as (new1 & Hsnd & Hsum & [rest Hrest] & Hgets & Hret).
    destruct (batch_loop w init output_dir false size n 1 pre 0 h1)
      as [[k'|e] h2]; simpl in Hsnd, Hret; subst h2.
    - destruct (batch_loop_invalid_stops w output_dir false size n
                  (1 + List.length pre) bad post k' (h1 ++ new1)%list
                  eq_refl Hbad) as [e He].
      rewrite He.
      exists e, (new1 ++ [EvPrint (MsgItem (1 + List.length pre) n bad)])%list.
      rewrite summaries_app, items_app, gets_app, Hsum, (Hret k' eq_refl).
      rewrite (Hret k' eq_refl) in Hgets. rewrite length_app. simpl.
      split; [now flatten_history|]. split; [reflexivity|].
      split; [now exists []; rewrite app_nil_r | lia].
    - exists e, new1.
      split; [reflexivity|]. split; [exact Hsum|].
      split; [exists (rest ++ [bad])%list; now rewrite app_assoc, Hrest|].
      rewrite <- Hrest, length_app. lia. }
  split; [|split].
  - apply download_avatar_url_raises. now apply get_avatar_url_invalid.
  - destruct (batch_download_cases w (pre ++ bad :: post) output_dir false
                size h)
      as (setup & (Hi0 & Hg0 & _ & Hs0 & _) & [[e Hstop] | Hrun]).
    + exists e, setup. rewrite Hstop, Hs0, Hi0, Hg0. simpl.
      split; [reflexivity|]. split; [reflexivity|].
      split; [now exists (pre ++ [bad])%list | lia].
    + rewrite Hrun. fold n.
      destruct (Hloop (h ++ setup)%list)
        as (e & new & Hraise & Hsum & Hitems & Hgets).
      rewrite Hraise.
      exists e, (setup ++ new)%list.
      rewrite summaries_app, items_app, gets_app, Hs0, Hi0, Hg0. simpl.
      split; [now rewrite <- app_assoc | auto].
  - intros Hw Hp Hsetup Hvalid.
    assert (Hurls : forall qq, In qq pre ->
                      exists url, get_avatar_url init qq false size = Return url).
    { apply valid_identifiers_have_urls. intros _. exact Hvalid. }
    rewrite batch_download_after_setup by assumption. fold n.
    match goal with
    | |- context [setup_events ?b ?d ?m] =>
        destruct (setup_events_quiet b d m)
          as (Hi0 & Hg0 & _ & Hs0 & _ & _);
        set (setup := setup_events b d m) in *
    end.
    rewrite batch_loop_app.
    destruct (batch_loop_completes w output_dir false size n pre Hw Hp Hurls
                1%nat 0%nat (h ++ setup)%list)
      as (new1 & Hrun & Hitems & Hgets & Hsum & _).
    rewrite Hrun, batch_loop_invalid by auto.
    exists (setup ++ new1
            ++ [EvPrint (MsgItem (1 + List.length pre) n bad)])%list.
    rewrite !summaries_app, !items_app, !gets_app, Hsum, Hitems, Hs0, Hi0, Hg0.
    cbn [app summaries items gets]. rewrite app_nil_r.
    split; [now rewrite <- !app_assoc | auto].
Qed.

Lemma invalid_identifier_escapes_and_aborts_batch_witness :
  download_avatar (steady_world (Return ok_response)) init
                  (QStr "abc") None false 640 [] = (Raise ValueError, [])
  /\
  exists new : history,
    batch_download (steady_world (Return ok_response)) init
                   ([QStr "10001"] ++ QStr "abc" :: [QStr "10003"])
                   "avatars" false 640 []
    = (Raise ValueError, ([] ++ new)%list) /\
    items new = ([QStr "10001"] ++ [QStr "abc"])%list /\
    map Return (gets new)
    = map (fun qq => get_avatar_url init qq false 640) [QStr "10001"] /\
    summaries new = [].
Proof.
  pose proof (invalid_identifier_escapes_and_aborts_batch
                (steady_world (Return ok_response)) (QStr "abc") None
                [QStr "10001"] [QStr "10003"] "avatars" 640 [] eq_refl)
    as (Hdownload & _ & Hbatch).
  split; [exact Hdownload|].
  apply Hbatch.
  - apply steady_world_only_exceptions.
  - apply steady_world_prints_succeed.
  - right. reflexivity.
  - intros qq [<- | []]. discriminate.
Defined.
(** * Further properties of the code *)

(** ** Strings *)

Lemma length_append (a b : string) :
  String.length (a ++ b) = (String.length a + String.length b)%nat.
Proof. induction a as [|c a IH]; simpl; [reflexivity | now rewrite IH]. Qed.

Lemma append_inv_tail (t a b : string) : a ++ t = b ++ t -> a = b.
Proof.
  revert b. induction a as [|c a IH]; intros [|d b] H; simpl in H.
  - reflexivity.
  - apply (f_equal String.length) in H. simpl in H.
    rewrite length_append in H. lia.
  - apply (f_equal String.length) in H. simpl in H.
    rewrite length_append in H. lia.
  - injection H as -> H. f_equal. now apply IH.
Qed.

Lemma prefix_append (a b : string) : prefix a (a ++ b) = true.
Proof.
  induction a as [|c a IH]; simpl; [now destruct b|].
  destruct (ascii_dec c c) as [_|Hc]; [exact IH | now destruct Hc].
Qed.

(** ** Identifiers and URLs *)

(** X2. For one quality and one size, two identifiers that get the same
    URL have the same text: [get_avatar_url] never maps two different
    identifiers to one URL. *)
Theorem same_url_same_identifier
        (qq qq' : qq_t) (hd : bool) (size : Z) (url : string) :
  get_avatar_url init qq hd size = Return url ->
  get_avatar_url init qq' hd size = Return url ->
  str_of_qq qq = str_of_qq qq'.
Proof.
  intros H H'. destruct hd.
  - rewrite get_avatar_url_hd in H, H'. rewrite <- H' in H.
    injection H as H. now apply append_inv_tail in H.
  - destruct (int_of_str (str_of_qq qq)) as [n|] eqn:Hn;
      [|rewrite (get_avatar_url_invalid qq size Hn) in H; discriminate].
    destruct (int_of_str (str_of_qq qq')) as [n'|] eqn:Hn';
      [|rewrite (get_avatar_url_invalid qq' size Hn') in H'; discriminate].
    rewrite (get_avatar_url_normal qq size n Hn) in H.
    rewrite (get_avatar_url_normal qq' size n' Hn') in H'.
    rewrite <- H' in H.
    destruct (n mod 2 =? 0), (n' mod 2 =? 0); simpl in H;
      try discriminate H; injection H as H;
      now apply append_inv_tail in H.
Qed.

Lemma same_url_same_identifier_witness :
  str_of_qq (QInt 10001) = str_of_qq (QStr "10001").
Proof.
  apply (same_url_same_identifier (QInt 10001) (QStr "10001") false 100
           "http://q2.qlogo.cn/g?b=qq&nk=10001&s=100");
    reflexivity.
Defined.

(** X3. The size table of the script chooses the quality from the size,
    [hd = (size > 140)]: then no size up to 640 is ever clamped (it is
    printed in the URL as it is), the standard interface serves the
    sizes up to 140 and the high-definition one the sizes above, and only
    a size above 640 is replaced, by 640. *)
Theorem url_for_size_keeps_sizes_up_to_640 (qq : qq_t) (size : Z) :
  (size <= 140 ->
   forall n, int_of_str (str_of_qq qq) = Some n ->
     url_for_size init qq size =
     Return ("http://q" ++ (if Z.even n then "1" else "2")
             ++ ".qlogo.cn/g?b=qq&nk=" ++ str_of_qq qq
             ++ "&s=" ++ str_of_int size))
  /\
  (140 < size <= 640 ->
   url_for_size init qq size =
   Return ("http://q.qlogo.cn/headimg_dl?dst_uin=" ++ str_of_qq qq
           ++ "&spec=" ++ str_of_int size ++ "&img_type=jpg"))
  /\
  (640 < size ->
   url_for_size init qq size =
   Return ("http://q.qlogo.cn/headimg_dl?dst_uin=" ++ str_of_qq qq
           ++ "&spec=640&img_type=jpg")).
Proof.
  unfold url_for_size. split; [|split].
  - intros Hsize n Hn.
    replace (size >? 140) with false
      by (symmetry; destruct (Z.gtb_spec size 140); [lia | reflexivity]).
    rewrite (get_avatar_url_normal qq size n Hn), clamp_below by exact Hsize.
    rewrite parity_server. reflexivity.
  - intros [Hlo Hhi].
    replace (size >? 140) with true
      by (symmetry; destruct (Z.gtb_spec size 140); [reflexivity | lia]).
    rewrite get_avatar_url_hd, clamp_below by exact Hhi. reflexivity.
  - intros Hsize.
    replace (size >? 140) with true
      by (symmetry; destruct (Z.gtb_spec size 140); [reflexivity | lia]).
    rewrite get_avatar_url_hd, clamp_above by exact Hsize. reflexivity.
Qed.

Lemma url_for_size_keeps_sizes_up_to_640_witness :
  url_for_size init (QStr "123456789") 140 =
  Return "http://q2.qlogo.cn/g?b=qq&nk=123456789&s=140"
  /\
  url_for_size init (QStr "123456789") 200 =
  Return "http://q.qlogo.cn/headimg_dl?dst_uin=123456789&spec=200&img_type=jpg".
Proof.
  split.
  - apply (proj1 (url_for_size_keeps_sizes_up_to_640 (QStr "123456789") 140)
                 ltac:(lia) 123456789).
    reflexivity.
  - apply (proj1 (proj2 (url_for_size_keeps_sizes_up_to_640
                           (QStr "123456789") 200))).
    lia.
Defined.

(** ** What a download tells its caller *)

Lemma raise_for_status_passed (r : response) :
  raise_for_status r = Return tt -> ~ 400 <= status_code r < 600.
Proof.
  unfold raise_for_status.
  destruct (Z.leb_spec 400 (status_code r));
    destruct (Z.ltb_spec (status_code r) 600); simpl; intros Hpass;
    try discriminate Hpass; lia.
Qed.

Section DownloadOutcome.

Variable w : World.
Variable qq : qq_t.
Variable save_path : option string.
Variable hd : bool.
Variable size : Z.
Variable h : history.
Variable url : string.
Hypothesis Hurl : get_avatar_url init qq hd size = Return url.

Local Abbreviation path := (save_path_or_default qq save_path hd).
Local Abbreviation dir := (os_path_dirname (abspath w path)).
Local Abbreviation run := (download_avatar w init qq save_path hd size h).

Ltac ends_caught e :=
  right; destruct e; simpl;
  try (destruct (print_outcome _ _ _) as [[]|?] eqn:?; simpl);
  try (left; reflexivity);
  right; eexists; (split; [reflexivity|]);
  try (left; reflexivity);
  right;
  match goal with
  | Hp : print_outcome _ ?h' (MsgSaveFailed ?x) = Raise _ |- _ =>
      exists x, h'; exact Hp
  | Hp : print_outcome _ ?h' (MsgDownloadFailed ?x) = Raise _ |- _ =>
      exists x, h'; exact Hp
  end.

(** The ways a download with a URL can end. *)
Lemma download_avatar_outcome :
  (fst run = Return true /\
   exists r,
     get_outcome w h url = Return r /\
     ~ 400 <= status_code r < 600 /\
     makedirs_outcome w (h ++ [EvGet url])%list dir true = Return tt /\
     open_outcome w (h ++ [EvGet url; EvMakedirs dir true])%list path
     = Return tt /\
     write_outcome w (h ++ [EvGet url; EvMakedirs dir true; EvOpen path])%list
                   path (content r) = Return tt /\
     print_outcome w (h ++ [EvGet url; EvMakedirs dir true; EvOpen path;
                            EvWrite path (content r)])%list
                   (MsgSaved path (List.length (content r))) = Return tt)
  \/ fst run = Return false
  \/ (exists e,
         fst run = Raise e /\
         (is_Exception e = false \/
          exists e0 h', print_outcome w h' (failure_line e0) = Raise e)).
Proof.
  run_download. rewrite Hurl.
  destruct (get_outcome w h url) as [r|e] eqn:Eg; [|ends_caught e].
  destruct (raise_for_status r) as [[]|e] eqn:Es; simpl; [|ends_caught e].
  destruct (makedirs_outcome _ _ _ _) as [[]|e] eqn:Em; simpl;
    [|ends_caught e].
  destruct (open_outcome _ _ _) as [[]|e] eqn:Eo; simpl; [|ends_caught e].
  destruct (write_outcome _ _ _ _) as [[]|e] eqn:Ew; simpl; [|ends_caught e].
  destruct (print_outcome _ _ _) as [[]|e] eqn:Ep; simpl;
    [|clear Ep; ends_caught e].
  left. split; [reflexivity|]. exists r.
  rewrite <- app_assoc in Eo. simpl in Eo.
  rewrite <- !app_assoc in Ew. simpl in Ew.
  rewrite <- !app_assoc in Ep. simpl in Ep.
  apply raise_for_status_passed in Es. auto 10.
Qed.

End DownloadOutcome.

(** X4. [download_avatar] returns [True] exactly when every step went
    through: the URL was built, the request was answered with a status
    outside 400-599, the directory was made, the file opened and written,
    and the line of the saved avatar printed.  Then the body of the
    response, and nothing else, was written to the destination, and the
    line printed gives its length. *)
Theorem download_true_iff_saved
        (w : World) (qq : qq_t) (save_path : option string) (hd : bool)
        (size : Z) (h : history) :
  let path := save_path_or_default qq save_path hd in
  let dir := os_path_dirname (abspath w path) in
  let run := download_avatar w init qq save_path hd size h in
  fst run = Return true <->
  exists url r,
    get_avatar_url init qq hd size = Return url /\
    get_outcome w h url = Return r /\
    ~ 400 <= status_code r < 600 /\
    makedirs_outcome w (h ++ [EvGet url])%list dir true = Return tt /\
    open_outcome w (h ++ [EvGet url; EvMakedirs dir true])%list path
    = Return tt /\
    write_outcome w (h ++ [EvGet url; EvMakedirs dir true; EvOpen path])%list
                  path (content r) = Return tt /\
    print_outcome w (h ++ [EvGet url; EvMakedirs dir true; EvOpen path;
                           EvWrite path (content r)])%list
                  (MsgSaved path (List.length (content r))) = Return tt /\
    snd run = (h ++ [EvGet url; EvMakedirs dir true; EvOpen path;
                     EvWrite path (content r);
                     EvPrint (MsgSaved path (List.length (content r)))])%list.
Proof.
  intros path dir run. subst path dir run. split.
  - intros Htrue.
    destruct (get_avatar_url init qq hd size) as [url|e] eqn:Hurl.
    + destruct (download_avatar_outcome w qq save_path hd size h url Hurl)
        as [[_ (r & Hg & Hs & Hm & Ho & Hw & Hp)] | [Hfalse | (e & He & _)]].
      * exists url, r. repeat (split; [assumption|]).
        now rewrite (download_avatar_succeeds w qq save_path hd size h url
                       Hurl r Hg Hs Hm Ho Hw Hp).
      * rewrite Hfalse in Htrue. discriminate.
      * rewrite He in Htrue. discriminate.
    + rewrite (download_avatar_url_raises w qq save_path hd size h e Hurl)
        in Htrue.
      discriminate.
  - intros (url & r & Hurl & Hg & Hs & Hm & Ho & Hw & Hp & _).
    now rewrite (download_avatar_succeeds w qq save_path hd size h url
                   Hurl r Hg Hs Hm Ho Hw Hp).
Qed.

Lemma download_true_iff_saved_witness :
  fst (download_avatar (steady_world (Return ok_response)) init
                       (QStr "10001") (Some "test_hd.jpg") true 640 [])
  = Return true.
Proof.
  apply (proj2 (download_true_iff_saved
                  (steady_world (Return ok_response)) (QStr "10001")
                  (Some "test_hd.jpg") true 640 [])).
  exists "http://q.qlogo.cn/headimg_dl?dst_uin=10001&spec=640&img_type=jpg",
         ok_response.
  repeat split; try reflexivity. simpl. lia.
Defined.

(** X5. What [download_avatar] lets through to its caller.  An exception
    that leaves the call is the [ValueError] of the URL construction
    (standard quality, identifier that [int] rejects; nothing has been
    done then), or an exception that is not an instance of [Exception],
    or an exception raised by the [print] of an [except] clause.  So with
    the high-definition
    quality, in a world that raises only instances of [Exception] and
    whose standard output takes every line, the call always returns a
    boolean. *)
Theorem download_raises_only_url_print_or_base_exception
        (w : World) (qq : qq_t) (save_path : option string) (hd : bool)
        (size : Z) (h : history) :
  let run := download_avatar w init qq save_path hd size h in
  (forall e, fst run = Raise e ->
     (hd = false /\ int_of_str (str_of_qq qq) = None /\
      e = ValueError /\ snd run = h)
     \/ is_Exception e = false
     \/ exists e0 h', print_outcome w h' (failure_line e0) = Raise e)
  /\
  (hd = true -> only_exceptions w -> prints_succeed w ->
   exists ok : bool, fst run = Return ok).
Proof.
  intros run. subst run. split.
  - intros e He.
    destruct (get_avatar_url init qq hd size) as [url|e'] eqn:Hurl.
    + right.
      destruct (download_avatar_outcome w qq save_path hd size h url Hurl)
        as [[Htrue _] | [Hfalse | (e2 & He2 & Hwhy)]].
      * rewrite Htrue in He. discriminate.
      * rewrite Hfalse in He. discriminate.
      * rewrite He2 in He. now injection He as <-.
    + left.
      rewrite (download_avatar_url_raises w qq save_path hd size h e' Hurl)
        in He |- *.
      simpl in He. injection He as <-.
      destruct hd; [rewrite get_avatar_url_hd in Hurl; discriminate|].
      destruct (int_of_str (str_of_qq qq)) as [n|] eqn:Hn.
      * rewrite (get_avatar_url_normal qq size n Hn) in Hurl. discriminate.
      * rewrite (get_avatar_url_invalid qq size Hn) in Hurl.
        injection Hurl as <-. auto.
  - intros -> Hw Hp.
    destruct (download_avatar_returns w qq save_path true size h _
                (get_avatar_url_hd qq size) Hw Hp) as (ok & new & Hrun & _).
    exists ok. now rewrite Hrun.
Qed.

Lemma download_raises_only_url_print_or_base_exception_witness :
  exists ok : bool,
    fst (download_avatar (flaky_world 0 (Return ok_response)) init
                         (QStr "not a number") None true 640 [])
    = Return ok.
Proof.
  apply (proj2 (download_raises_only_url_print_or_base_exception
                  (flaky_world 0 (Return ok_response)) (QStr "not a number")
                  None true 640 [])).
  - reflexivity.
  - apply flaky_world_only_exceptions.
  - apply flaky_world_prints_succeed.
Defined.

(** ** The probe *)

(** X6. [check_avatar_exists] does one thing to the world: it sends a
    single HEAD request, for the largest size of the quality (640, or
    140 for the standard quality), whatever the answer is; it sends no
    GET request, touches no file and prints nothing. *)
Theorem check_sends_one_head_for_largest_size
        (w : World) (qq : qq_t) (hd : bool) (h : history) (url : string) :
  get_avatar_url init qq hd 640 = Return url ->
  let run := check_avatar_exists w init qq hd h in
  snd run = (h ++ [EvHead url])%list
  /\
  (hd = true ->
   url = "http://q.qlogo.cn/headimg_dl?dst_uin=" ++ str_of_qq qq
         ++ "&spec=640&img_type=jpg")
  /\
  (hd = false ->
   forall n, int_of_str (str_of_qq qq) = Some n ->
     url = "http://q" ++ (if Z.even n then "1" else "2")
           ++ ".qlogo.cn/g?b=qq&nk=" ++ str_of_qq qq ++ "&s=140").
Proof.
  intros Hurl run. subst run. split; [|split].
  - destruct (head_outcome w h url) as [r|e] eqn:Hhead.
    + now rewrite (check_avatar_exists_answered w qq hd h url r Hurl Hhead).
    + now rewrite (check_avatar_exists_swallows w qq hd h url e Hurl Hhead).
  - intros ->. rewrite get_avatar_url_hd in Hurl. now injection Hurl as <-.
  - intros -> n Hn. rewrite (get_avatar_url_normal qq 640 n Hn) in Hurl.
    rewrite parity_server in Hurl. now injection Hurl as <-.
Qed.

Lemma check_sends_one_head_for_largest_size_witness :
  snd (check_avatar_exists (steady_world (Raise (RequestException Timeout)))
                           init (QInt 10002) false [])
  = [EvHead "http://q1.qlogo.cn/g?b=qq&nk=10002&s=140"].
Proof.
  apply (proj1 (check_sends_one_head_for_largest_size
                  (steady_world (Raise (RequestException Timeout)))
                  (QInt 10002) false []
                  "http://q1.qlogo.cn/g?b=qq&nk=10002&s=140" eq_refl)).
Defined.

(** ** Identifiers and paths *)

Lemma space_is_not_slash (c : ascii) : is_space c = true -> is_slash c = false.
Proof.
  unfold is_slash. destruct (Ascii.eqb_spec c "/") as [->|_];
    [discriminate | reflexivity].
Qed.

Lemma has_slash_skip_spaces (s : string) :
  has_slash (skip_spaces s) = has_slash s.
Proof.
  induction s as [|c s IH]; simpl; [reflexivity|].
  destruct (is_space c) eqn:Hc; [|reflexivity].
  now rewrite (space_is_not_slash c Hc), IH.
Qed.

Lemma has_slash_scan_digits (s : string) :
  forall acc prev n rest,
    scan_digits acc prev s = Some (n, rest) -> has_slash s = has_slash rest.
Proof.
  induction s as [|c s IH]; intros acc prev n rest H; simpl in H.
  - destruct prev as [[|]|]; try discriminate H. now injection H as _ <-.
  - destruct (digit_value c) as [d|] eqn:Hd.
    + simpl. rewrite (IH _ _ _ _ H).
      unfold is_slash. destruct (Ascii.eqb_spec c "/") as [->|_];
        [discriminate Hd | reflexivity].
    + destruct (is_underscore c) eqn:Hu.
      * destruct prev as [[|]|]; try discriminate H.
        simpl. rewrite (IH _ _ _ _ H).
        unfold is_slash. destruct (Ascii.eqb_spec c "/") as [->|_];
          [discriminate Hu | reflexivity].
      * destruct prev as [[|]|]; try discriminate H. now injection H as _ <-.
Qed.

(** [int_of_str], with the sign read by comparisons. *)
Lemma int_of_str_by_sign (s : string) :
  int_of_str s =
  let s1 := skip_spaces s in
  let signed :=
    match s1 with
    | String c _ => Ascii.eqb c "+" || Ascii.eqb c "-"
    | EmptyString => false
    end in
  let negative :=
    match s1 with
    | String c _ => Ascii.eqb c "-"
    | EmptyString => false
    end in
  let s2 :=
    match s1 with
    | String _ r => if signed then r else s1
    | EmptyString => s1
    end in
  match scan_digits 0 None s2 with
  | Some (n, rest) =>
      match skip_spaces rest with
      | EmptyString => Some (if negative then - n else n)
      | _ => None
      end
  | None => None
  end.
Proof.
  unfold int_of_str. destruct (skip_spaces s) as [|c r]; [reflexivity|].
  destruct c as [[] [] [] [] [] [] [] []]; reflexivity.
Qed.

(** An identifier that [int] accepts contains no slash. *)
Lemma parsed_identifier_has_no_slash (s : string) (n : Z) :
  int_of_str s = Some n -> has_slash s = false.
Proof.
  rewrite int_of_str_by_sign. cbv zeta.
  rewrite <- (has_slash_skip_spaces s).
  destruct (skip_spaces s) as [|c r].
  - simpl. discriminate.
  - destruct (Ascii.eqb c "+" || Ascii.eqb c "-") eqn:Hsign.
    + destruct (scan_digits 0 None r) as [[m rest]|] eqn:Hscan;
        [|discriminate].
      destruct (skip_spaces rest) eqn:Hrest; [|discriminate]. intros _.
      simpl. rewrite (has_slash_scan_digits r _ _ _ _ Hscan).
      rewrite <- (has_slash_skip_spaces rest), Hrest. simpl.
      unfold is_slash. destruct (Ascii.eqb_spec c "/") as [->|_];
        [discriminate Hsign | reflexivity].
    + destruct (scan_digits 0 None (String c r)) as [[m rest]|] eqn:Hscan;
        [|discriminate].
      destruct (skip_spaces rest) eqn:Hrest; [|discriminate]. intros _.
      rewrite (has_slash_scan_digits (String c r) _ _ _ _ Hscan).
      now rewrite <- (has_slash_skip_spaces rest), Hrest.
Qed.

Lemma has_slash_append (a b : string) :
  has_slash (a ++ b) = has_slash a || has_slash b.
Proof.
  induction a as [|c a IH]; simpl; [reflexivity|].
  now rewrite IH, orb_assoc.
Qed.

Lemma no_slash_not_absolute (p : string) :
  has_slash p = false -> os_path_isabs p = false.
Proof.
  destruct p as [|c p]; simpl; [reflexivity|].
  intros H. now apply orb_false_iff in H.
Qed.

Lemma prefix_join (a b : string) :
  os_path_isabs b = false -> prefix a (os_path_join a b) = true.
Proof.
  intros Hb. unfold os_path_join. rewrite Hb.
  destruct ((String.length a =? 0)%nat || ends_with_slash a);
    apply prefix_append.
Qed.

(** ** More on histories *)

Lemma progress_app (h1 h2 : history) :
  progress (h1 ++ h2)%list = (progress h1 ++ progress h2)%list.
Proof.
  induction h1 as [|ev h1 IH]; simpl; [reflexivity|].
  destruct ev as [| | | | | |m]; simpl; try exact IH.
  destruct m; simpl; now rewrite ?IH.
Qed.

Lemma items_of_progress (h : history) :
  items h = map (fun t => snd t) (progress h).
Proof.
  induction h as [|ev h IH]; simpl; [reflexivity|].
  destruct ev as [| | | | | |m]; simpl; try exact IH.
  destruct m; simpl; now rewrite ?IH.
Qed.

Lemma no_items_no_progress (h : history) : items h = [] -> progress h = [].
Proof.
  rewrite items_of_progress. now destruct (progress h).
Qed.

(** ** More on the batch *)

Section BatchTrace.

Variable w : World.
Variable output_dir : string.
Variable hd : bool.
Variable size : Z.
Variable n : nat.

Local Abbreviation loop := (batch_loop w init output_dir hd size n).

(** What one download of the batch leaves in the history, in any world. *)
Lemma batch_download_avatar_trace (qq : qq_t) (h : history) :
  exists new : history,
    snd (download_avatar w init qq (Some (batch_save_path output_dir hd qq))
                         hd size h) = (h ++ new)%list /\
    progress new = [] /\
    (forall p, In p (writes new) ->
       p = batch_save_path output_dir hd qq /\
       exists url, get_avatar_url init qq hd size = Return url).
Proof.
  destruct (get_avatar_url init qq hd size) as [url|e] eqn:Hurl.
  - destruct (download_avatar_adds w qq (Some (batch_save_path output_dir hd qq))
                hd size h url Hurl)
      as (new & Hnew & _ & Hitems & _ & Hwrites).
    exists new. split; [exact Hnew|]. split; [now apply no_items_no_progress|].
    intros p Hp. split; [now apply Hwrites | now exists url].
  - exists [].
    rewrite (download_avatar_url_raises w qq _ hd size h e Hurl).
    simpl. rewrite app_nil_r.
    split; [reflexivity|]. split; [reflexivity|]. intros p [].
Qed.

(** In any world: the progress lines are numbered from [i] on, in the
    order of the list, and every path written is the one of an
    identifier of the list whose URL could be built. *)
Lemma batch_loop_trace (qqs : list qq_t) :
  forall (i k : nat) (h : history),
  exists new : history,
    snd (loop i qqs k h) = (h ++ new)%list /\
    (exists rest, (progress new ++ rest)%list = numbered i n qqs) /\
    (forall k', fst (loop i qqs k h) = Return k' ->
                progress new = numbered i n qqs) /\
    (forall p, In p (writes new) ->
       exists qq, In qq qqs /\
         p = batch_save_path output_dir hd qq /\
         exists url, get_avatar_url init qq hd size = Return url).
Proof.
  induction qqs as [|qq qqs IH]; intros i k h.
  - exists []. simpl. rewrite app_nil_r.
    split; [reflexivity|]. split; [now exists []|].
    split; [reflexivity|]. intros p [].
  - rewrite batch_loop_cons.
    change (os_path_join output_dir (str_of_qq qq ++ quality_suffix hd))
      with (batch_save_path output_dir hd qq).
    destruct (print_outcome w h (MsgItem i n qq)) as [[]|e].
    2: { exists [EvPrint (MsgItem i n qq)]. simpl.
         split; [reflexivity|].
         split; [now exists (numbered (S i) n qqs)|].
         split; [discriminate | intros p []]. }
    destruct (batch_download_avatar_trace qq
                (h ++ [EvPrint (MsgItem i n qq)])%list)
      as (new1 & Hnew1 & Hprog1 & Hwrites1).
    destruct (download_avatar _ _ _ _ _ _ _) as [[ok|e] h1];
      simpl in Hnew1; subst h1.
    + destruct (IH (S i) (if ok then S k else k)
                   ((h ++ [EvPrint (MsgItem i n qq)]) ++ new1)%list)
        as (new2 & Hnew2 & [rest Hrest] & Hret & Hwrites2).
      exists ([EvPrint (MsgItem i n qq)] ++ new1 ++ new2)%list.
      rewrite Hnew2. rewrite !progress_app, !writes_app, Hprog1. simpl.
      split; [now flatten_history|].
      split; [exists rest; now rewrite Hrest|].
      split; [intros k' Hk'; now rewrite (Hret k' Hk')|].
      intros p Hp. apply in_app_or in Hp. destruct Hp as [Hp|Hp].
      * destruct (Hwrites1 p Hp) as [-> Hurl]. exists qq. auto.
      * destruct (Hwrites2 p Hp) as (q & Hq & Hpq & Hurl). exists q. auto.
    + exists ([EvPrint (MsgItem i n qq)] ++ new1)%list.
      rewrite !progress_app, !writes_app, Hprog1. simpl.
      split; [now flatten_history|].
      split; [now exists (numbered (S i) n qqs)|].
      split; [discriminate|].
      intros p Hp. destruct (Hwrites1 p Hp) as [-> Hurl]. exists qq. auto.
Qed.

(** In a world that always delivers, and when every URL can be built,
    every avatar of the list is saved, each at its own path. *)
Lemma batch_loop_delivers (qqs : list qq_t) :
  always_delivers w ->
  (forall qq, In qq qqs ->
     exists url, get_avatar_url init qq hd size = Return url) ->
  forall (i k : nat) (h : history),
  exists new : history,
    loop i qqs k h = (Return (k + List.length qqs)%nat, (h ++ new)%list) /\
    writes new = map (batch_save_path output_dir hd) qqs.
Proof.
  intros (Hg & Hm & Ho & Hw & Hp).
  induction qqs as [|qq qqs IH]; intros Hurls i k h.
  - exists []. simpl. now rewrite app_nil_r, Nat.add_0_r.
  - rewrite batch_loop_cons, Hp.
    change (os_path_join output_dir (str_of_qq qq ++ quality_suffix hd))
      with (batch_save_path output_dir hd qq).
    destruct (Hurls qq (or_introl eq_refl)) as [url Hurl].
    destruct (Hg (h ++ [EvPrint (MsgItem i n qq)])%list url)
      as (r & Hget & Hst).
    rewrite (download_avatar_succeeds w qq
               (Some (batch_save_path output_dir hd qq)) hd size
               (h ++ [EvPrint (MsgItem i n qq)])%list url Hurl r Hget Hst
               (Hm _ _ _) (Ho _ _) (Hw _ _ _) (Hp _ _)).
    simpl save_path_or_default.
    match goal with
    | |- context [loop (S i) qqs (S k) ?h1] =>
        destruct (IH (fun q Hq => Hurls q (or_intror Hq)) (S i) (S k) h1)
          as (new2 & Hloop & Hwrites2)
    end.
    rewrite Hloop. eexists. split.
    + f_equal; [f_equal; simpl; lia|]. flatten_history. reflexivity.
    + simpl. now rewrite Hwrites2.
Qed.

(** When the network is down, every line can be printed and every URL
    can be built, the loop still sends one request for each identifier,
    touches no file and counts no success. *)
Lemma batch_loop_network_down (qqs : list qq_t) :
  network_down w ->
  prints_succeed w ->
  (forall qq, In qq qqs ->
     exists url, get_avatar_url init qq hd size = Return url) ->
  forall (i k : nat) (h : history),
  exists new : history,
    loop i qqs k h = (Return k, (h ++ new)%list) /\
    touched new = [] /\
    map Return (gets new) = map (fun qq => get_avatar_url init qq hd size) qqs.
Proof.
  intros Hdown Hp. induction qqs as [|qq qqs IH]; intros Hurls i k h.
  - exists []. simpl. now rewrite app_nil_r.
  - rewrite batch_loop_cons, Hp.
    destruct (Hurls qq (or_introl eq_refl)) as [url Hurl].
    destruct (Hdown (h ++ [EvPrint (MsgItem i n qq)])%list url) as [r Hget].
    rewrite (proj1 (download_avatar_request_raises w qq _ hd size
                      (h ++ [EvPrint (MsgItem i n qq)])%list url Hurl
                      (RequestException r) Hget) eq_refl (Hp _ _)).
    match goal with
    | |- context [loop (S i) qqs k ?h1] =>
        destruct (IH (fun q Hq => Hurls q (or_intror Hq)) (S i) k h1)
          as (new2 & Hloop & Htouched2 & Hgets2)
    end.
    rewrite Hloop. eexists. split.
    + f_equal. flatten_history. reflexivity.
    + simpl. rewrite Htouched2, Hgets2, Hurl. auto.
Qed.

End BatchTrace.

(** [batch_download] in any world: numbering of the progress lines and
    origin of the paths written. *)
Lemma batch_download_trace
      (w : World) (qq_list : list qq_t) (output_dir : string) (hd : bool)
      (size : Z) (h : history) :
  exists new : history,
    snd (batch_download w init qq_list output_dir hd size h) = (h ++ new)%list /\
    (exists rest,
        (progress new ++ rest)%list = numbered 1 (List.length qq_list) qq_list) /\
    (fst (batch_download w init qq_list output_dir hd size h) = Return tt ->
     progress new = numbered 1 (List.length qq_list) qq_list) /\
    (forall p, In p (writes new) ->
       exists qq, In qq qq_list /\
         p = batch_save_path output_dir hd qq /\
         exists url, get_avatar_url init qq hd size = Return url).
Proof.
  set (n := List.length qq_list).
  destruct (batch_download_cases w qq_list output_dir hd size h)
    as (setup & (_ & _ & Hw0 & _ & Hp0) & [[e Hstop] | Hrun]).
  - exists setup. rewrite Hstop, Hw0, Hp0. cbn [fst snd app].
    split; [reflexivity|]. split; [now exists (numbered 1 n qq_list)|].
    split; [discriminate | intros p []].
  - rewrite Hrun. fold n.
    destruct (batch_loop_trace w output_dir hd size n qq_list 1%nat 0%nat
                (h ++ setup)%list)
      as (new & Hsnd & Hrest & Hret & Hwrites).
    destruct (batch_loop w init output_dir hd size n 1%nat qq_list 0%nat
                         (h ++ setup)%list)
      as [[k|e] h']; cbn [fst snd] in Hsnd, Hret; subst h'.
    + exists (setup ++ new ++ [EvPrint (MsgBatchDone k n)])%list.
      cbn [fst snd].
      rewrite !progress_app, !writes_app, Hw0, Hp0.
      cbn [app progress writes]. rewrite !app_nil_r.
      split; [now rewrite <- !app_assoc|]. split; [exact Hrest|].
      split; [intros _; now apply (Hret k) | exact Hwrites].
    + exists (setup ++ new)%list. cbn [fst snd].
      rewrite !progress_app, !writes_app, Hw0, Hp0. cbn [app].
      split; [now rewrite <- !app_assoc|]. split; [exact Hrest|].
      split; [discriminate | exact Hwrites].
Qed.

Lemma steady_world_always_delivers (r : response) :
  ~ 400 <= status_code r < 600 -> always_delivers (steady_world (Return r)).
Proof.
  intros Hst. repeat split; simpl; auto. intros _ _. now exists r.
Qed.

Lemma steady_world_network_down (r : request_exception) :
  network_down (steady_world (Raise (RequestException r))).
Proof. intros h url. now exists r. Qed.

(** X7. With the standard quality, in any world, every file that
    [batch_download] writes is output_dir joined with {identifier}.png
    for an identifier of the list, and that file name contains no slash:
    the path starts with the output directory and cannot lead out of
    it. *)
Theorem standard_batch_writes_inside_output_dir
        (w : World) (qq_list : list qq_t) (output_dir : string) (size : Z)
        (h : history) :
  exists new : history,
    snd (batch_download w init qq_list output_dir false size h)
    = (h ++ new)%list /\
    forall p, In p (writes new) ->
      exists qq, In qq qq_list /\
        p = os_path_join output_dir (str_of_qq qq ++ ".png") /\
        has_slash (str_of_qq qq ++ ".png") = false /\
        prefix output_dir p = true.
Proof.
  destruct (batch_download_trace w qq_list output_dir false size h)
    as (new & Hsnd & _ & _ & Hwrites).
  exists new. split; [exact Hsnd|].
  intros p Hp. destruct (Hwrites p Hp) as (qq & Hin & -> & url & Hurl).
  exists qq. split; [exact Hin|]. split; [reflexivity|].
  assert (Hname : has_slash (str_of_qq qq ++ ".png") = false).
  { destruct (int_of_str (str_of_qq qq)) as [n|] eqn:Hn.
    - rewrite has_slash_append,
        (parsed_identifier_has_no_slash (str_of_qq qq) n Hn).
      reflexivity.
    - rewrite (get_avatar_url_invalid qq size Hn) in Hurl. discriminate. }
  split; [exact Hname|].
  apply prefix_join, no_slash_not_absolute, Hname.
Qed.

(** X8. In any world, the progress lines of [batch_download] are
    numbered 1, 2, 3, ... in the order of the list, each with the length
    of the list as its total: what was printed is always a beginning of
    that numbering, and the whole of it when the method returns. *)
Theorem progress_lines_numbered_from_one
        (w : World) (qq_list : list qq_t) (output_dir : string) (hd : bool)
        (size : Z) (h : history) :
  exists new : history,
    snd (batch_download w init qq_list output_dir hd size h) = (h ++ new)%list /\
    (exists rest,
        (progress new ++ rest)%list = numbered 1 (List.length qq_list) qq_list) /\
    (fst (batch_download w init qq_list output_dir hd size h) = Return tt ->
     progress new = numbered 1 (List.length qq_list) qq_list).
Proof.
  destruct (batch_download_trace w qq_list output_dir hd size h)
    as (new & Hsnd & Hrest & Hret & _).
  exists new. auto.
Qed.

(** X9. When nothing fails (every request is answered without an error
    status, the file system and the standard output accept every call)
    and every URL can be
    built, [batch_download] saves one file for each identifier of the
    list, in order, at output_dir joined with {identifier}{suffix}, and
    its closing line counts them all. *)
Theorem batch_saves_every_avatar_when_nothing_fails
        (w : World) (qq_list : list qq_t) (output_dir : string) (hd : bool)
        (size : Z) (h : history) :
  always_delivers w ->
  (hd = false ->
   forall qq, In qq qq_list -> int_of_str (str_of_qq qq) <> None) ->
  exists new : history,
    batch_download w init qq_list output_dir hd size h =
    (Return tt,
     h ++ new ++ [EvPrint (MsgBatchDone (List.length qq_list)
                                        (List.length qq_list))])%list /\
    writes new
    = map (fun qq => os_path_join output_dir
                                  (str_of_qq qq ++ quality_suffix hd))
          qq_list.
Proof.
  intros Hw Hvalid.
  pose proof (valid_identifiers_have_urls qq_list hd size Hvalid) as Hurls.
  rewrite batch_download_after_setup by (try right; apply Hw).
  match goal with
  | |- context [batch_loop _ _ _ _ _ _ _ _ _ ?h0] =>
      destruct (batch_loop_delivers w output_dir hd size (List.length qq_list)
                  qq_list Hw Hurls 1%nat 0%nat h0) as (new & Hloop & Hwrites)
  end.
  rewrite Hloop.
  match goal with
  | |- context [setup_events ?b ?d ?n] =>
      destruct (setup_events_quiet b d n) as (_ & _ & Hw0 & _);
      exists (setup_events b d n ++ new)%list
  end.
  rewrite writes_app, Hw0, Hwrites. split; [|reflexivity].
  f_equal. now rewrite <- !app_assoc.
Qed.

Lemma batch_saves_every_avatar_when_nothing_fails_witness :
  exists new : history,
    batch_download (steady_world (Return ok_response)) init
                   [QStr "10001"; QInt 10002] "avatars" false 100 [] =
    (Return tt, [] ++ new ++ [EvPrint (MsgBatchDone 2 2)])%list /\
    writes new = ["avatars/10001.png"; "avatars/10002.png"].
Proof.
  apply (batch_saves_every_avatar_when_nothing_fails
           (steady_world (Return ok_response))
           [QStr "10001"; QInt 10002] "avatars" false 100 []).
  - apply steady_world_always_delivers. simpl. lia.
  - intros _ qq [<- | [<- | []]]; discriminate.
Defined.

(** X10. The file name of a batch is not confined to the output
    directory when the identifier is an absolute path: with the
    high-definition quality and nothing failing, an identifier that
    starts with a slash is saved at {identifier}_hd.jpg itself, the output
    directory being dropped from the path. *)
Theorem absolute_identifiers_leave_output_dir
        (w : World) (qq_list : list qq_t) (output_dir : string) (size : Z)
        (h : history) :
  always_delivers w ->
  (forall qq, In qq qq_list -> os_path_isabs (str_of_qq qq) = true) ->
  exists new : history,
    snd (batch_download w init qq_list output_dir true size h)
    = (h ++ new)%list /\
    writes new = map (fun qq => str_of_qq qq ++ "_hd.jpg") qq_list.
Proof.
  intros Hw Habs.
  assert (Hurls : forall qq, In qq qq_list ->
                    exists url, get_avatar_url init qq true size = Return url).
  { intros qq _. eexists. apply get_avatar_url_hd. }
  rewrite batch_download_after_setup by (try right; apply Hw).
  match goal with
  | |- context [batch_loop _ _ _ _ _ _ _ _ _ ?h0] =>
      destruct (batch_loop_delivers w output_dir true size (List.length qq_list)
                  qq_list Hw Hurls 1%nat 0%nat h0) as (new & Hloop & Hwrites)
  end.
  rewrite Hloop.
  match goal with
  | |- context [setup_events ?b ?d ?n] =>
      destruct (setup_events_quiet b d n) as (_ & _ & Hw0 & _);
      exists (setup_events b d n ++ new
              ++ [EvPrint (MsgBatchDone (0 + List.length qq_list)
                                        (List.length qq_list))])%list
  end.
  cbn [fst snd]. rewrite !writes_app, Hw0, Hwrites. cbn [app writes].
  rewrite app_nil_r. split; [now rewrite <- !app_assoc|].
  apply map_ext_in. intros qq Hin.
  unfold batch_save_path, os_path_join.
  specialize (Habs qq Hin).
  destruct (str_of_qq qq) as [|c s]; [discriminate Habs|].
  simpl in Habs |- *. now rewrite Habs.
Qed.

Lemma absolute_identifiers_leave_output_dir_witness :
  exists new : history,
    snd (batch_download (steady_world (Return ok_response)) init
                        [QStr "/tmp/x"] "avatars" true 640 [])
    = ([] ++ new)%list /\
    writes new = ["/tmp/x_hd.jpg"].
Proof.
  apply (absolute_identifiers_leave_output_dir
           (steady_world (Return ok_response)) [QStr "/tmp/x"]
           "avatars" 640 []).
  - apply steady_world_always_delivers. simpl. lia.
  - intros qq [<- | []]. reflexivity.
Defined.

(** X11. When every request fails with a request exception, the
    standard output taking every line, the output directory being there
    or made and every URL buildable, [batch_download] still sends one
    request for each identifier, in order, touches no file after its
    set-up, returns, and reports 0 successes out of the length of the
    list. *)
Theorem batch_reports_zero_when_network_is_down
        (w : World) (qq_list : list qq_t) (output_dir : string) (hd : bool)
        (size : Z) (h : history) :
  network_down w ->
  prints_succeed w ->
  (exists_outcome w h output_dir = true \/
   makedirs_outcome w (h ++ [EvExists output_dir])%list output_dir false
   = Return tt) ->
  (hd = false ->
   forall qq, In qq qq_list -> int_of_str (str_of_qq qq) <> None) ->
  exists new : history,
    batch_download w init qq_list output_dir hd size h =
    (Return tt,
     h ++ setup_events (exists_outcome w h output_dir) output_dir
                       (List.length qq_list)
       ++ new ++ [EvPrint (MsgBatchDone 0 (List.length qq_list))])%list /\
    touched new = [] /\
    map Return (gets new)
    = map (fun qq => get_avatar_url init qq hd size) qq_list.
Proof.
  intros Hdown Hp Hsetup Hvalid.
  pose proof (valid_identifiers_have_urls qq_list hd size Hvalid) as Hurls.
  rewrite batch_download_after_setup by assumption.
  match goal with
  | |- context [batch_loop _ _ _ _ _ _ _ _ _ ?h0] =>
      destruct (batch_loop_network_down w output_dir hd size
                  (List.length qq_list) qq_list Hdown Hp Hurls 1%nat 0%nat h0)
        as (new & Hloop & Htouched & Hgets)
  end.
  rewrite Hloop. exists new.
  split; [|split; assumption].
  f_equal. now rewrite <- !app_assoc.
Qed.

Lemma batch_reports_zero_when_network_is_down_witness :
  exists new : history,
    batch_download (steady_world (Raise (RequestException Timeout))) init
                   [QStr "10001"; QStr "10002"] "avatars" true 640 [] =
    (Return tt,
     [] ++ setup_events false "avatars" 2
        ++ new ++ [EvPrint (MsgBatchDone 0 2)])%list /\
    touched new = [] /\
    map Return (gets new)
    = map (fun qq => get_avatar_url init qq true 640)
          [QStr "10001"; QStr "10002"].
Proof.
  apply (batch_reports_zero_when_network_is_down
           (steady_world (Raise (RequestException Timeout)))
           [QStr "10001"; QStr "10002"] "avatars" true 640 []).
  - apply steady_world_network_down.
  - apply steady_world_prints_succeed.
  - right. reflexivity.
  - discriminate.
Defined.

(** ** Directory of a batch file *)

Lemma upto_last_slash_none (b : string) :
  has_slash b = false -> upto_last_slash b = EmptyString.
Proof.
  destruct b as [|c b]; [reflexivity|].
  intros H. cbn [upto_last_slash]. now rewrite H.
Qed.

Lemma upto_last_slash_join (a b : string) :
  has_slash b = false ->
  upto_last_slash (a ++ String "/" b) = a ++ "/".
Proof.
  intros Hb. induction a as [|c a IH].
  - cbn [append upto_last_slash]. cbn [has_slash is_slash].
    replace (Ascii.eqb "/" "/") with true by reflexivity.
    cbn [orb]. now rewrite (upto_last_slash_none b Hb).
  - cbn [append upto_last_slash].
    replace (has_slash (String c (a ++ String "/" b))) with true.
    + now rewrite IH.
    + cbn [has_slash]. rewrite has_slash_append. cbn [has_slash is_slash].
      replace (Ascii.eqb "/" "/") with true by reflexivity.
      cbn [orb]. now rewrite !orb_true_r.
Qed.

Lemma ends_with_slash_cons (c d : ascii) (a : string) :
  ends_with_slash (String c (String d a)) = ends_with_slash (String d a).
Proof.
  unfold ends_with_slash. cbn [String.length]. cbn [Nat.sub].
  rewrite !Nat.sub_0_r. reflexivity.
Qed.

Lemma rstrip_slashes_join (a : string) :
  a <> EmptyString ->
  ends_with_slash a = false ->
  all_slashes (a ++ "/") = false /\ rstrip_slashes (a ++ "/") = a.
Proof.
  induction a as [|c a IH]; intros Hne Hend; [now destruct Hne|].
  destruct a as [|d a].
  - unfold ends_with_slash in Hend. simpl in Hend.
    cbn [append all_slashes rstrip_slashes]. rewrite Hend.
    simpl. split; reflexivity.
  - rewrite ends_with_slash_cons in Hend.
    destruct (IH ltac:(discriminate) Hend) as [Hall Hstrip].
    change (String c (String d a) ++ "/")
      with (String c (String d a ++ "/")).
    cbn [all_slashes rstrip_slashes]. rewrite Hall, Hstrip.
    rewrite andb_false_r. split; reflexivity.
Qed.

(** X12. The directory part of a batch file is the output directory:
    for an identifier without a slash (as every identifier that [int]
    accepts is) and an output directory that is not empty and does not
    end with a slash, [os.path.dirname] of the path that [batch_download]
    builds with [os.path.join] gives the output directory back; so when
    that path is already absolute and normal, the directory that
    [download_avatar] makes for it is the output directory. *)
Theorem batch_file_directory_is_output_dir
        (w : World) (output_dir : string) (hd : bool) (qq : qq_t) :
  output_dir <> EmptyString ->
  ends_with_slash output_dir = false ->
  has_slash (str_of_qq qq) = false ->
  os_path_dirname (batch_save_path output_dir hd qq) = output_dir /\
  (abspath w (batch_save_path output_dir hd qq)
   = batch_save_path output_dir hd qq ->
   os_path_dirname (abspath w (save_path_or_default
                                 qq (Some (batch_save_path output_dir hd qq)) hd))
   = output_dir).
Proof.
  intros Hne Hend Hqq.
  assert (Hname : has_slash (str_of_qq qq ++ quality_suffix hd) = false).
  { rewrite has_slash_append, Hqq. now destruct hd. }
  assert (Hdir : os_path_dirname (batch_save_path output_dir hd qq) = output_dir).
  { unfold batch_save_path, os_path_join.
    rewrite (no_slash_not_absolute _ Hname), Hend.
    replace (String.length output_dir =? 0)%nat with false
      by (destruct output_dir; [now destruct Hne | reflexivity]).
    cbn [orb].
    change (output_dir ++ "/" ++ str_of_qq qq ++ quality_suffix hd)
      with (output_dir ++ String "/" (str_of_qq qq ++ quality_suffix hd)).
    unfold os_path_dirname. rewrite (upto_last_slash_join _ _ Hname).
    destruct (rstrip_slashes_join output_dir Hne Hend) as [Hall Hstrip].
    now rewrite Hall, Hstrip. }
  split; [exact Hdir|].
  intros Habs. simpl save_path_or_default. now rewrite Habs.
Qed.

Lemma batch_file_directory_is_output_dir_witness :
  os_path_dirname (batch_save_path "/home/avatars" true (QStr "10001"))
  = "/home/avatars".
Proof.
  apply (proj1 (batch_file_directory_is_output_dir
                  (steady_world (Return ok_response)) "/home/avatars" true
                  (QStr "10001") ltac:(discriminate) eq_refl eq_refl)).
Defined.

